(** * toki: a fluent SQL statement builder (Go) -- shallow embedding

    Source files embedded here: [toki.go] (the [Builder], its chainable
    methods, [String], [Bind] and [convertPlaceholders]) and the file that
    declares [SQLExpression] and [Raw].

    Conventions of the embedding.
    - A Go [string] is a sequence of bytes: Rocq's [string] (a list of 8-bit
      [ascii]).  Go's [for _, c := range s] decodes UTF-8 on the fly; the
      decoder is modelled in [Module utf8].
    - A Go [int] is a 64-bit two's complement integer: a [Z] with the
      wrap-around written out ([int_wrap]).
    - A method with a pointer receiver that returns the receiver is a
      function [Builder -> Builder]; a method that also returns a value is a
      function into a pair; a method that can panic returns an [option].
    - A Go [map] is a [gmap]; the unspecified iteration order of [range] over
      a map is an explicit permutation of the map's entries.
    - Definitions keep the names of the source.  The methods [Set] and
      [String] are [Builder_Set] and [Builder_String] here, since [Set] is a
      sort and [String] a constructor of [string]. *)

From Stdlib Require Import ZArith Lia Ascii DecimalString DecimalPos DecimalZ FunInd.
From stdpp Require Import base list strings gmap.

Local Open Scope Z_scope.

(** ** Machine integers and bytes *)

(** Go's [int] on 64-bit platforms. *)
Definition int_min : Z := - 2 ^ 63.
Definition int_max : Z := 2 ^ 63 - 1.

(** The value an [int] computation yields after two's complement
    wrap-around. *)
Definition int_wrap (z : Z) : Z := (z + 2 ^ 63) mod 2 ^ 64 - 2 ^ 63.

(** [x++] on an [int]. *)
Definition int_incr (x : Z) : Z := int_wrap (x + 1).

(** The numeric value of a byte of a string. *)
Definition byte_val (a : ascii) : Z := Z.of_N (N_of_ascii a).

(** Go's conversion [byte(x)]: truncation to the low 8 bits. *)
Definition byte_trunc (z : Z) : Z := z mod 256.

(** The byte holding a value already in [0, 256). *)
Definition byte_of (z : Z) : ascii := ascii_of_N (Z.to_N z).

(** ** UTF-8, as the Go runtime and [unicode/utf8] implement it *)

Module utf8.

Definition rune : Type := Z.

Definition RuneError : rune := 0xFFFD.
Definition RuneSelf : Z := 0x80.
Definition MaxRune : rune := 0x10FFFF.

Definition surrogateMin : rune := 0xD800.
Definition surrogateMax : rune := 0xDFFF.

Definition t1 : Z := 0x00.
Definition tx : Z := 0x80.
Definition t2 : Z := 0xC0.
Definition t3 : Z := 0xE0.
Definition t4 : Z := 0xF0.
Definition t5 : Z := 0xF8.

Definition maskx : Z := 0x3F.
Definition mask2 : Z := 0x1F.
Definition mask3 : Z := 0x0F.
Definition mask4 : Z := 0x07.

Definition rune1Max : rune := 0x7F.
Definition rune2Max : rune := 0x7FF.
Definition rune3Max : rune := 0xFFFF.

Definition locb : Z := 0x80.
Definition hicb : Z := 0xBF.

(** [locb <= c && c <= hicb]: [c] is a continuation byte. *)
Definition is_cont (c : Z) : bool := (locb <=? c) && (c <=? hicb).

(** The three multi-byte cases of the runtime's [decoderune]: the rune a
  sequence starting with the lead byte [c0] decodes to, or [None] when the
  sequence is not a well-formed encoding (the runtime then yields
  [RuneError] and advances by one byte). *)
Definition decode2 (c0 c1 : Z) : option rune :=
if (t2 <=? c0) && (c0 <? t3) && is_cont c1 then
  let r := Z.lor (Z.shiftl (Z.land c0 mask2) 6) (Z.land c1 maskx) in
  if rune1Max <? r then Some r else None
else None.

Definition decode3 (c0 c1 c2 : Z) : option rune :=
if (t3 <=? c0) && (c0 <? t4) && is_cont c1 && is_cont c2 then
  let r := Z.lor (Z.lor (Z.shiftl (Z.land c0 mask3) 12)
                        (Z.shiftl (Z.land c1 maskx) 6))
                 (Z.land c2 maskx) in
  if (rune2Max <? r) && negb ((surrogateMin <=? r) && (r <=? surrogateMax))
  then Some r else None
else None.

Definition decode4 (c0 c1 c2 c3 : Z) : option rune :=
if (t4 <=? c0) && (c0 <? t5) && is_cont c1 && is_cont c2 && is_cont c3 then
  let r := Z.lor (Z.lor (Z.lor (Z.shiftl (Z.land c0 mask4) 18)
                               (Z.shiftl (Z.land c1 maskx) 12))
                        (Z.shiftl (Z.land c2 maskx) 6))
                 (Z.land c3 maskx) in
  if (rune3Max <? r) && (r <=? MaxRune) then Some r else None
else None.

(** The runes that [for _, c := range s] yields, in order.  An ASCII byte is
  its own rune; a well-formed multi-byte sequence is one rune; any other
  byte yields [RuneError] and the iteration advances a single byte. *)
Fixpoint range_runes (s : string) : list rune :=
match s with
| EmptyString => []
| String b0 s1 =>
  let c0 := byte_val b0 in
  if c0 <? RuneSelf then c0 :: range_runes s1
  else
    match s1 with
    | EmptyString => RuneError :: range_runes s1
    | String b1 s2 =>
      match decode2 c0 (byte_val b1) with
      | Some r => r :: range_runes s2
      | None =>
        match s2 with
        | EmptyString => RuneError :: range_runes s1
        | String b2 s3 =>
          match decode3 c0 (byte_val b1) (byte_val b2) with
          | Some r => r :: range_runes s3
          | None =>
            match s3 with
            | EmptyString => RuneError :: range_runes s1
            | String b3 s4 =>
              match decode4 c0 (byte_val b1) (byte_val b2) (byte_val b3) with
              | Some r => r :: range_runes s4
              | None => RuneError :: range_runes s1
              end
            end
          end
        end
      end
    end
end.

(** The bytes [utf8.AppendRune] appends for [r]. *)
Definition encode_bytes (r : rune) : list Z :=
if (0 <=? r) && (r <=? rune1Max) then [byte_trunc r]
else if (0 <=? r) && (r <=? rune2Max) then
  [Z.lor t2 (byte_trunc (Z.shiftr r 6));
   Z.lor tx (Z.land (byte_trunc r) maskx)]
else
  let three (r : rune) :=
    [Z.lor t3 (byte_trunc (Z.shiftr r 12));
     Z.lor tx (Z.land (byte_trunc (Z.shiftr r 6)) maskx);
     Z.lor tx (Z.land (byte_trunc r) maskx)] in
  if (r <? 0) || (MaxRune <? r)
     || ((surrogateMin <=? r) && (r <=? surrogateMax))
  then three RuneError
  else if r <=? rune3Max then three r
  else
    [Z.lor t4 (byte_trunc (Z.shiftr r 18));
     Z.lor tx (Z.land (byte_trunc (Z.shiftr r 12)) maskx);
     Z.lor tx (Z.land (byte_trunc (Z.shiftr r 6)) maskx);
     Z.lor tx (Z.land (byte_trunc r) maskx)].

Definition AppendRune (p : string) (r : rune) : string :=
p +:+ String.string_of_list_ascii (byte_of <$> encode_bytes r).

(** [utf8.ValidString(s)]: the decoder meets no ill-formed byte in [s],
  that is, the iteration over [s] never falls back to [RuneError]. *)
Fixpoint ValidString (s : string) : bool :=
match s with
| EmptyString => true
| String b0 s1 =>
  let c0 := byte_val b0 in
  if c0 <? RuneSelf then ValidString s1
  else
    match s1 with
    | EmptyString => false
    | String b1 s2 =>
      match decode2 c0 (byte_val b1) with
      | Some _ => ValidString s2
      | None =>
        match s2 with
        | EmptyString => false
        | String b2 s3 =>
          match decode3 c0 (byte_val b1) (byte_val b2) with
          | Some _ => ValidString s3
          | None =>
            match s3 with
            | EmptyString => false
            | String b3 s4 =>
              match decode4 c0 (byte_val b1) (byte_val b2) (byte_val b3) with
              | Some _ => ValidString s4
              | None => false
              end
            end
          end
        end
      end
    end
end.

End utf8.

(** ** The pieces of Go's [strings], [fmt] and [sync] packages the builder uses *)

(** [strings.Join(elems, sep)]. *)
Fixpoint Join (elems : list string) (sep : string) : string :=
  match elems with
  | [] => ""
  | [e] => e
  | e :: rest => e +:+ sep +:+ Join rest sep
  end.

(** [strings.HasSuffix(s, suffix)]:
    [len(s) >= len(suffix) && s[len(s)-len(suffix):] == suffix]. *)
Definition HasSuffix (s suffix : string) : bool :=
  (String.length suffix <=? String.length s)%nat
  && String.eqb
       (String.substring (String.length s - String.length suffix)
                         (String.length suffix) s)
       suffix.

(** The verb [%d] of [fmt.Sprintf] on an [int]: signed decimal. *)
Definition Itoa (n : Z) : string := NilZero.string_of_int (Z.to_int n).

(** [fmt.Sprintf("$%d", n)]. *)
Definition placeholder (n : Z) : string := "$" +:+ Itoa n.

(** A [strings.Builder], by the bytes it has accumulated. *)
Module StringsBuilder.
Definition t : Type := string.
Definition empty : t := "".
Definition WriteByte (sb : t) (c : ascii) : t := sb +:+ String c "".
Definition WriteString (sb : t) (s : string) : t := sb +:+ s.
Definition WriteRune (sb : t) (r : utf8.rune) : t := utf8.AppendRune sb r.
Definition Reset (sb : t) : t := "".
Definition contents (sb : t) : string := sb.
End StringsBuilder.

(** A [sync.Pool] of [*strings.Builder]: the buffers it currently holds.
    [Get] removes and returns an arbitrary held buffer, or ignores what it
    holds and calls [New]; the choice is the argument [pick]. *)
Module SyncPool.
Record t : Type := mk { idle : list StringsBuilder.t }.

Definition fresh : t := mk [].

Definition Get (pick : option nat) (p : t) : StringsBuilder.t * t :=
  match pick with
  | None => (StringsBuilder.empty, p)
  | Some i =>
    match idle p !! i with
    | Some sb => (sb, mk (delete i (idle p)))
    | None => (StringsBuilder.empty, p)
    end
  end.

Definition Put (sb : StringsBuilder.t) (p : t) : t := mk (sb :: idle p).
End SyncPool.

(** ** Values of type [interface{}] and the [SQLExpression] interface *)

(** [type SQLExpression interface { SQL() string }]. *)
Class SQLExpression (T : Type) := SQL : T -> string.

(** [type Raw string], with [func (r Raw) SQL() string { return string(r) }]. *)
Record Raw : Type := mkRaw { raw_string : string }.

#[export] Instance Raw_SQLExpression : SQLExpression Raw := raw_string.

(** The dynamic values an [interface{}] holds.  [VExpr] is a value of any
    type whose method set has [SQL() string]; the other constructors are
    values of types that do not implement [SQLExpression]. *)
Inductive value : Type :=
| VNil
| VBool (b : bool)
| VInt (n : Z)
| VString (s : string)
| VTime (unix : Z)
| VExpr {T : Type} `{SQLExpression T} (x : T).

(** The type assertion [val.(SQLExpression)] followed by [expr.SQL()]:
    the fragment when the assertion succeeds. *)
Definition as_SQLExpression (val : value) : option string :=
  match val with
  | VExpr x => Some (SQL x)
  | _ => None
  end.

(** ** The builder *)

(** A [*Transaction]: opaque to the builder. *)
Definition Transaction : Type := positive.

Record Builder : Type := mkBuilder {
  parts : list string;
  args : list value;
  argIndex : Z;
  pool : option SyncPool.t;
  table : string;
  tx : option Transaction
}.

Definition set_parts (ps : list string) (b : Builder) : Builder :=
  mkBuilder ps (args b) (argIndex b) (pool b) (table b) (tx b).
Definition set_args (xs : list value) (b : Builder) : Builder :=
  mkBuilder (parts b) xs (argIndex b) (pool b) (table b) (tx b).
Definition set_argIndex (n : Z) (b : Builder) : Builder :=
  mkBuilder (parts b) (args b) n (pool b) (table b) (tx b).
Definition set_pool (p : option SyncPool.t) (b : Builder) : Builder :=
  mkBuilder (parts b) (args b) (argIndex b) p (table b) (tx b).
Definition set_table (t : string) (b : Builder) : Builder :=
  mkBuilder (parts b) (args b) (argIndex b) (pool b) t (tx b).
Definition set_tx (t : option Transaction) (b : Builder) : Builder :=
  mkBuilder (parts b) (args b) (argIndex b) (pool b) (table b) t.

(** [b.parts = append(b.parts, ps...)] and [b.args = append(b.args, xs...)]. *)
Definition append_parts (ps : list string) (b : Builder) : Builder :=
  set_parts (parts b ++ ps) b.
Definition append_args (xs : list value) (b : Builder) : Builder :=
  set_args (args b ++ xs) b.

(** [b.argIndex++]. *)
Definition incr_argIndex (b : Builder) : Builder :=
  set_argIndex (int_incr (argIndex b)) b.

Definition New : Builder :=
  mkBuilder [] [] 0 (Some SyncPool.fresh) "" None.

Definition WithTransaction (t : option Transaction) (b : Builder) : Builder :=
  set_tx t b.

(** One iteration of the loop of [convertPlaceholders]: the state is the
    builder and the local [result]. *)
Definition convertPlaceholders_step
    (st : Builder * StringsBuilder.t) (c : utf8.rune)
    : Builder * StringsBuilder.t :=
  let '(b, result) := st in
  if c =? 63 (* '?' *) then
    let b1 := incr_argIndex b in
    (b1, StringsBuilder.WriteString result (placeholder (argIndex b1)))
  else (b, StringsBuilder.WriteRune result c).

Definition convertPlaceholders (query : string) (b : Builder)
    : string * Builder :=
  let '(b1, result) :=
    fold_left convertPlaceholders_step (utf8.range_runes query)
              (b, StringsBuilder.empty) in
  (StringsBuilder.contents result, b1).

Definition Select (columns : list string) (b : Builder) : Builder :=
  append_parts ["SELECT " +:+ Join columns ", "] b.

Definition From (tbl : string) (b : Builder) : Builder :=
  let b1 := set_table tbl b in
  append_parts ["FROM " +:+ table b1] b1.

(** The guard of [Where]:
    [len(b.parts) > 0 && !strings.HasSuffix(b.parts[len(b.parts)-1], "WHERE")]. *)
Definition where_guard (ps : list string) : bool :=
  (0 <? length ps)%nat
  && match ps !! (length ps - 1)%nat with
     | Some p => negb (HasSuffix p "WHERE")
     | None => false
     end.

Definition Where (condition : string) (xs : list value) (b : Builder)
    : Builder :=
  let b1 := if where_guard (parts b) then append_parts ["WHERE"] b else b in
  let '(cond, b2) := convertPlaceholders condition b1 in
  append_args xs (append_parts [cond] b2).

Definition AndWhere (condition : string) (xs : list value) (b : Builder)
    : Builder :=
  let '(cond, b1) := convertPlaceholders condition b in
  append_args xs (append_parts ["AND"; cond] b1).

Definition OrWhere (condition : string) (xs : list value) (b : Builder)
    : Builder :=
  let '(cond, b1) := convertPlaceholders condition b in
  append_args xs (append_parts ["OR"; cond] b1).

Definition OrderBy (columns : list string) (b : Builder) : Builder :=
  append_parts ["ORDER BY " +:+ Join columns ", "] b.

Definition Update (tbl : string) (b : Builder) : Builder :=
  append_parts ["UPDATE " +:+ tbl] b.

(** One iteration of the loop of [Set], for the entry [(col, val)]: the
    state is the local [sets] and the builder. *)
Definition Set_step (st : list string * Builder) (e : string * value)
    : list string * Builder :=
  let '(sets, b) := st in
  let '(col, val) := e in
  match as_SQLExpression val with
  | Some sql => (sets ++ [col +:+ " = " +:+ sql], b)
  | None =>
    let b1 := incr_argIndex b in
    (sets ++ [col +:+ " = " +:+ placeholder (argIndex b1)],
     append_args [val] b1)
  end.

(** [Set], when [range updates] visits the entries in the order [entries]. *)
Definition Set_in_order (entries : list (string * value)) (b : Builder)
    : Builder :=
  let '(sets, b1) := fold_left Set_step entries ([], b) in
  append_parts ["SET " +:+ Join sets ", "] b1.

(** [Set(updates)]: Go leaves the iteration order of a map unspecified, so
    the method is a relation between the builder before and after. *)
Definition Builder_Set (updates : gmap string value) (b b' : Builder) : Prop :=
  exists entries,
    entries ≡ₚ map_to_list updates /\ b' = Set_in_order entries b.

Definition Insert (tbl : string) (columns : list string) (b : Builder)
    : Builder :=
  append_parts ["INSERT INTO " +:+ tbl +:+ " (" +:+ Join columns ", " +:+ ")"] b.

(** One iteration of the loop of [Values]: the state is the local
    [placeholders] (filled from index 0 upwards) and the builder. *)
Definition Values_step (st : list string * Builder) (v : value)
    : list string * Builder :=
  let '(placeholders, b) := st in
  let b1 := incr_argIndex b in
  (placeholders ++ [placeholder (argIndex b1)], b1).

Definition Values (values : list value) (b : Builder) : Builder :=
  let '(placeholders, b1) := fold_left Values_step values ([], b) in
  append_args values
    (append_parts ["VALUES (" +:+ Join placeholders ", " +:+ ")"] b1).

Definition Delete (tbl : string) (b : Builder) : Builder :=
  append_parts ["DELETE FROM " +:+ tbl] b.

Definition DeleteFrom (tbl : string) (b : Builder) : Builder :=
  Delete tbl b.

Definition Returning (columns : list string) (b : Builder) : Builder :=
  if (0 <? length columns)%nat
  then append_parts ["RETURNING"; Join columns ", "] b
  else b.

(** The loop of [String]: [i] is the index of the first part of [ps]. *)
Fixpoint write_parts (i : nat) (ps : list string) (sb : StringsBuilder.t)
    : StringsBuilder.t :=
  match ps with
  | [] => sb
  | part :: rest =>
    let sb1 := if (0 <? i)%nat then StringsBuilder.WriteByte sb " " else sb in
    write_parts (S i) rest (StringsBuilder.WriteString sb1 part)
  end.

(** [String]: [None] is the nil dereference of a builder without a pool
    (one not made by [New]); [pick] is the choice [sync.Pool.Get] makes.
    The deferred function resets the buffer and puts it back. *)
Definition Builder_String (pick : option nat) (b : Builder)
    : option (string * Builder) :=
  match pool b with
  | None => None
  | Some p =>
    let '(sb, p1) := SyncPool.Get pick p in
    let sb1 := write_parts 0 (parts b) sb in
    let result := StringsBuilder.contents sb1 in
    let p2 := SyncPool.Put (StringsBuilder.Reset sb1) p1 in
    Some (result, set_pool (Some p2) b)
  end.

(** ** Struct binding *)

(** What [reflect] shows of the argument of [Bind].  A struct field has a
    name, is exported or not, carries a struct tag (its key/value pairs, in
    order) and holds a value. *)
Record StructField : Type := mkField {
  fieldName : string;
  fieldExported : bool;
  fieldTag : list (string * string);
  fieldValue : value
}.

Inductive reflected : Type :=
| RStruct (typeName : string) (fields : list StructField)
| RPtr (elem : reflected)
| RNilPtr
| ROther (v : value).

(** [field.Tag.Get(key)]: the value of the first pair with that key, the
    empty string when there is none. *)
Fixpoint Tag_Get (tag : list (string * string)) (key : string) : string :=
  match tag with
  | [] => ""
  | (k, v) :: rest => if String.eqb k key then v else Tag_Get rest key
  end.

(** One iteration of the loop of [Bind]; [None] is the panic of
    [reflect.Value.Interface] on a value obtained from an unexported field. *)
Definition Bind_step (st : option (gmap string value)) (field : StructField)
    : option (gmap string value) :=
  match st with
  | None => None
  | Some result =>
    let tag := Tag_Get (fieldTag field) "db" in
    if negb (String.eqb tag "") then
      if fieldExported field
      then Some (<[tag := fieldValue field]> result)
      else None
    else Some result
  end.

Section Bind.

(** [strings.ToLower], which lower-cases by Unicode's tables. *)
Variable ToLower : string -> string.

(** [Bind]: [None] is a panic of [reflect] (a nil pointer, a value that is
    not a struct after at most one dereference, or an unexported field that
    carries the tag). *)
Definition Bind (dest : reflected) (b : Builder)
    : option (gmap string value * Builder) :=
  let val :=
    match dest with
    | RPtr elem => Some elem
    | RNilPtr => None
    | _ => Some dest
    end in
  match val with
  | Some (RStruct typeName fields) =>
    match fold_left Bind_step fields (Some ∅) with
    | Some result =>
      Some (result,
            if String.eqb (table b) ""
            then set_table (ToLower typeName) b
            else b)
    | None => None
    end
  | _ => None
  end.

End Bind.

(** ** Sequences of chained calls *)

(** The chainable methods, each with its arguments.  [CSet] carries the
    entries of the map in the order [range] visits them. *)
Inductive call : Type :=
| CWithTransaction (t : option Transaction)
| CSelect (columns : list string)
| CFrom (tbl : string)
| CWhere (condition : string) (xs : list value)
| CAndWhere (condition : string) (xs : list value)
| COrWhere (condition : string) (xs : list value)
| COrderBy (columns : list string)
| CUpdate (tbl : string)
| CSet (entries : list (string * value))
| CInsert (tbl : string) (columns : list string)
| CValues (values : list value)
| CDelete (tbl : string)
| CDeleteFrom (tbl : string)
| CReturning (columns : list string).

Definition exec (c : call) (b : Builder) : Builder :=
  match c with
  | CWithTransaction t => WithTransaction t b
  | CSelect columns => Select columns b
  | CFrom tbl => From tbl b
  | CWhere condition xs => Where condition xs b
  | CAndWhere condition xs => AndWhere condition xs b
  | COrWhere condition xs => OrWhere condition xs b
  | COrderBy columns => OrderBy columns b
  | CUpdate tbl => Update tbl b
  | CSet entries => Set_in_order entries b
  | CInsert tbl columns => Insert tbl columns b
  | CValues values => Values values b
  | CDelete tbl => Delete tbl b
  | CDeleteFrom tbl => DeleteFrom tbl b
  | CReturning columns => Returning columns b
  end.

(** A chain [New().c1(...).c2(...)...], run from the builder [b]. *)
Definition run (cs : list call) (b : Builder) : Builder :=
  fold_left (fun b c => exec c b) cs b.

(** The builder states of a builder's life: made by [New], then changed by
    chained calls, by [Set] (in whatever order the map is visited), by
    rendering and by binding. *)
Inductive reachable : Builder -> Prop :=
| reachable_New : reachable New
| reachable_exec c b : reachable b -> reachable (exec c b)
| reachable_Set updates b b' :
    reachable b -> Builder_Set updates b b' -> reachable b'
| reachable_String pick b s b' :
    reachable b -> Builder_String pick b = Some (s, b') -> reachable b'
| reachable_Bind ToLower dest b m b' :
    reachable b -> Bind ToLower dest b = Some (m, b') -> reachable b'.

(** ** Vocabulary of the specification *)

(** The marker [?] and the number of markers in a string. *)
Definition marker : ascii := "?"%char.

Fixpoint markers (s : string) : nat :=
  match s with
  | EmptyString => O
  | String a rest =>
    if Ascii.eqb a marker then S (markers rest) else markers rest
  end.

Definition marker_free (s : string) : bool := Nat.eqb (markers s) 0.

(** The segments of a string between its markers. *)
Fixpoint split_markers (s : string) : list string :=
  match s with
  | EmptyString => [""]
  | String a rest =>
    if Ascii.eqb a marker then "" :: split_markers rest
    else
      match split_markers rest with
      | seg :: segs => String a seg :: segs
      | [] => [String a ""]
      end
  end.

(** The text [seg0 $(c+1) seg1 $(c+2) ... segN]: the segments unchanged and,
    between segment K-1 and segment K, the placeholder numbered [c + K]. *)
Fixpoint numbered (c : Z) (segs : list string) : string :=
  match segs with
  | [] => ""
  | [seg] => seg
  | seg :: rest => seg +:+ placeholder (c + 1) +:+ numbered (c + 1) rest
  end.

(** The values of an assignment list that are not raw expressions. *)
Definition is_raw (val : value) : bool :=
  match as_SQLExpression val with Some _ => true | None => false end.

Definition bound_values (entries : list (string * value)) : list value :=
  filter (fun val => is_raw val = false) (entries.*2).

(** The assignments of a [SET] clause when the counter is [c] before it: a
    raw expression is embedded and leaves the counter alone, any other value
    takes the next placeholder. *)
Fixpoint assignments (c : Z) (entries : list (string * value)) : list string :=
  match entries with
  | [] => []
  | (col, val) :: rest =>
    match as_SQLExpression val with
    | Some sql => (col +:+ " = " +:+ sql) :: assignments c rest
    | None =>
      (col +:+ " = " +:+ placeholder (c + 1)) :: assignments (c + 1) rest
    end
  end.

(** The number of placeholders a call generates, and the values the caller
    supplies with it for the argument list, in order. *)
Definition generated (c : call) : nat :=
  match c with
  | CWhere condition _ | CAndWhere condition _ | COrWhere condition _ =>
    markers condition
  | CSet entries => length (bound_values entries)
  | CValues values => length values
  | _ => O
  end.

Definition supplied (c : call) : list value :=
  match c with
  | CWhere _ xs | CAndWhere _ xs | COrWhere _ xs => xs
  | CSet entries => bound_values entries
  | CValues values => values
  | _ => []
  end.

(** The values supplied along a chain, in call order. *)
Definition all_supplied (cs : list call) : list value :=
  concat (supplied <$> cs).

(** A call pairs its placeholders with its values when it is given as many
    values as it generates placeholders. *)
Definition paired (c : call) : Prop := length (supplied c) = generated c.

(** The column a field declares with the tag [db], and whether it declares
    one. *)
Definition column (field : StructField) : string :=
  Tag_Get (fieldTag field) "db".

Definition tagged (field : StructField) : bool :=
  negb (String.eqb (column field) "").

(** The value [Bind] reports for a column: that of the last field that
    declares it. *)
Fixpoint bound_column (fields : list StructField) (col : string)
    : option value :=
  match fields with
  | [] => None
  | field :: rest =>
    match bound_column rest col with
    | Some v => Some v
    | None =>
      if tagged field && String.eqb (column field) col
      then Some (fieldValue field)
      else None
    end
  end.

(** The idle buffers of the builder's pool are all reset. *)
Definition pool_clean (b : Builder) : Prop :=
  exists p, pool b = Some p /\ Forall (fun sb => sb = "") (SyncPool.idle p).

(** ** Errors and [database/sql], as far as the package touches them *)

(** A Go [error]: one that [database/sql] returned, one made by
    [fmt.Errorf] from a fixed text, or one made by [fmt.Errorf] with the
    verb [%w], which wraps another error behind a prefix. *)
Inductive error : Type :=
| ErrSql (msg : string)
| ErrText (msg : string)
| ErrWrap (prefix : string) (err : error).



(** A [*sql.DB] and a [*sql.Tx]: handles, opaque to the package. *)
Definition DB : Type := positive.
Definition SqlTx : Type := positive.

(** [sql.TxOptions] and [TransactionOptions]: an isolation level and a
    read-only flag. *)
Record TxOptions : Type := mkTxOptions {
  TxOptions_Isolation : Z;
  TxOptions_ReadOnly : bool
}.


(** The calls the package makes into [database/sql], each with its receiver
    and arguments. *)
Inductive sql_call : Type :=
| DB_BeginTx (db : DB) (opts : option TxOptions)
| DB_Query (db : DB) (query : string) (xs : list value)
| DB_QueryRow (db : DB) (query : string) (xs : list value)
| DB_Exec (db : DB) (query : string) (xs : list value)
| Tx_Query (t : SqlTx) (query : string) (xs : list value)
| Tx_QueryRow (t : SqlTx) (query : string) (xs : list value)
| Tx_Exec (t : SqlTx) (query : string) (xs : list value)
| Tx_Commit (t : SqlTx)
| Tx_Rollback (t : SqlTx).

(** ** Transactions *)

(** [type Transaction struct { tx *sql.Tx; done bool }]. *)
Record TransactionState : Type := mkTransaction {
  Transaction_tx : option SqlTx;
  Transaction_done : bool
}.



(** [Commit]: [answer] is what [t.tx.Commit()] returns when it is called
    ([None] for a nil error).  The result is the error returned ([None] for
    nil), the transaction afterwards and the calls made; the outer [None]
    is the nil dereference of a transaction without a [*sql.Tx]. *)
Definition Commit (answer : option error) (t : TransactionState)
    : option (option error * TransactionState * list sql_call) :=
  if Transaction_done t
  then Some (Some (ErrText "transaction already committed"), t, [])
  else
    match Transaction_tx t with
    | None => None
    | Some h =>
      match answer with
      | Some err =>
        Some (Some (ErrWrap "failed to commit transaction: " err), t,
              [Tx_Commit h])
      | None => Some (None, mkTransaction (Transaction_tx t) true, [Tx_Commit h])
      end
    end.

(** [Rollback], likewise. *)
Definition Rollback (answer : option error) (t : TransactionState)
    : option (option error * TransactionState * list sql_call) :=
  if Transaction_done t
  then Some (Some (ErrText "transaction already rolled back"), t, [])
  else
    match Transaction_tx t with
    | None => None
    | Some h =>
      match answer with
      | Some err =>
        Some (Some (ErrWrap "failed to rollback transaction: " err), t,
              [Tx_Rollback h])
      | None =>
        Some (None, mkTransaction (Transaction_tx t) true, [Tx_Rollback h])
      end
    end.

(** A use of a transaction: a sequence of [Commit] and [Rollback] calls,
    each with the answer [database/sql] gives if it is asked. *)
Inductive tx_op : Type :=
| OpCommit (answer : option error)
| OpRollback (answer : option error).

Definition tx_step (op : tx_op) (t : TransactionState)
    : option (option error * TransactionState * list sql_call) :=
  match op with
  | OpCommit answer => Commit answer t
  | OpRollback answer => Rollback answer t
  end.

(** The calls made into [database/sql] along a sequence of uses, and the
    transaction afterwards; [None] when a use panics. *)
Fixpoint tx_run (ops : list tx_op) (t : TransactionState)
    : option (list sql_call * TransactionState) :=
  match ops with
  | [] => Some ([], t)
  | op :: rest =>
    match tx_step op t with
    | None => None
    | Some (_, t1, calls) =>
      match tx_run rest t1 with
      | None => None
      | Some (calls', t2) => Some (calls ++ calls', t2)
      end
    end
  end.

(** ** Prepared statements *)

(** [type Stmt struct { query string; args []interface{}; db *sql.DB;
    tx *sql.Tx }]. *)
Record Stmt : Type := mkStmt {
  Stmt_query : string;
  Stmt_args : list value;
  Stmt_db : option DB;
  Stmt_tx : option SqlTx
}.

(** [Prepare]: [heap] gives the transaction a [*Transaction] points to,
    [pick] is the choice of the pool in [String].  The result is the
    statement, the error (always nil) and the builder afterwards; [None] is
    the panic of [String] on a builder without a pool. *)
Definition Prepare (heap : Transaction -> TransactionState)
    (pick : option nat) (db : option DB) (b : Builder)
    : option (Stmt * option error * Builder) :=
  match Builder_String pick b with
  | None => None
  | Some (query, b1) =>
    let stmt_tx :=
      match tx b1 with
      | Some t => Transaction_tx (heap t)
      | None => None
      end in
    Some (mkStmt query (args b1) db stmt_tx, None, b1)
  end.

(** [Query], [QueryRow] and [Exec] of a statement hand the query and the
    arguments to the transaction when there is one and to the database
    otherwise, and return what that call returns.  Each is given here by the
    call it makes; [None] is the nil dereference when there is neither. *)
Definition Stmt_Query (s : Stmt) : option sql_call :=
  match Stmt_tx s with
  | Some t => Some (Tx_Query t (Stmt_query s) (Stmt_args s))
  | None => (fun db => DB_Query db (Stmt_query s) (Stmt_args s)) <$> Stmt_db s
  end.

Definition Stmt_QueryRow (s : Stmt) : option sql_call :=
  match Stmt_tx s with
  | Some t => Some (Tx_QueryRow t (Stmt_query s) (Stmt_args s))
  | None =>
    (fun db => DB_QueryRow db (Stmt_query s) (Stmt_args s)) <$> Stmt_db s
  end.

Definition Stmt_Exec (s : Stmt) : option sql_call :=
  match Stmt_tx s with
  | Some t => Some (Tx_Exec t (Stmt_query s) (Stmt_args s))
  | None => (fun db => DB_Exec db (Stmt_query s) (Stmt_args s)) <$> Stmt_db s
  end.

(** ** Raw queries *)










(** ** More vocabulary *)

(** A string of ASCII bytes none of which is the marker. *)
Fixpoint plain (s : string) : bool :=
  match s with
  | EmptyString => true
  | String a rest =>
    (byte_val a <? utf8.RuneSelf) && negb (Ascii.eqb a marker) && plain rest
  end.

(** The columns and values of the tagged fields of a struct, in field
    order. *)
Definition tagged_entries (fields : list StructField)
    : list (string * value) :=
  (fun f => (column f, fieldValue f))
    <$> filter (fun f => tagged f = true) fields.

(** The number of placeholders generated along a chain. *)
Fixpoint all_generated (cs : list call) : nat :=
  match cs with
  | [] => O
  | c :: rest => (generated c + all_generated rest)%nat
  end.

(** The table and the transaction a chain leaves behind: those of the last
    [From] and of the last [WithTransaction], if any. *)
Fixpoint chain_table (cs : list call) (tbl : string) : string :=
  match cs with
  | [] => tbl
  | CFrom t :: rest => chain_table rest t
  | _ :: rest => chain_table rest tbl
  end.

Fixpoint chain_tx (cs : list call) (t : option Transaction)
    : option Transaction :=
  match cs with
  | [] => t
  | CWithTransaction t' :: rest => chain_tx rest t'
  | _ :: rest => chain_tx rest t
  end.

(** The answer given to a use of a transaction, and the call the use
    makes on the [*sql.Tx] when it reaches it. *)
Definition op_answer (op : tx_op) : option error :=
  match op with
  | OpCommit answer | OpRollback answer => answer
  end.

Definition op_call (h : SqlTx) (op : tx_op) : sql_call :=
  match op with
  | OpCommit _ => Tx_Commit h
  | OpRollback _ => Tx_Rollback h
  end.

Functional Scheme range_runes_ind := Induction for utf8.range_runes Sort Prop.

(** * Properties *)

(** ** Strings, bytes and machine integers *)

#[local] Arguments String.append !_ _ / : simpl nomatch.

Lemma append_assoc (s1 s2 s3 : string) : (s1 +:+ s2) +:+ s3 = s1 +:+ s2 +:+ s3.
Proof. induction s1 as [|a s1 IH]; simpl; [reflexivity | f_equal; exact IH]. Qed.

Lemma append_nil_r (s : string) : s +:+ "" = s.
Proof. induction s as [|a s IH]; simpl; [reflexivity | f_equal; exact IH]. Qed.

Lemma int_wrap_id (z : Z) : int_min <= z <= int_max -> int_wrap z = z.
Proof.
  unfold int_min, int_max, int_wrap. intros Hz.
  rewrite Z.mod_small; lia.
Qed.

Lemma int_incr_succ (z : Z) : int_min <= z < int_max -> int_incr z = z + 1.
Proof. intros Hz. apply int_wrap_id. unfold int_min, int_max in *. lia. Qed.

Lemma byte_val_range (a : ascii) : 0 <= byte_val a < 256.
Proof.
  unfold byte_val. pose proof (N_ascii_bounded a). lia.
Qed.

Lemma byte_of_val (a : ascii) : byte_of (byte_val a) = a.
Proof.
  unfold byte_of, byte_val. rewrite N2Z.id. apply ascii_N_embedding.
Qed.

Lemma byte_val_marker (a : ascii) : Ascii.eqb a marker = (byte_val a =? 63).
Proof.
  destruct (Ascii.eqb_spec a marker) as [->|Hne]; [reflexivity|].
  symmetry. apply Z.eqb_neq. intros Heq. apply Hne.
  rewrite <- (byte_of_val a), Heq. reflexivity.
Qed.

(** ** UTF-8: decoding a well-formed sequence and encoding it again *)

Section utf8_facts.
Import utf8.

(** Bitwise or of two numbers with disjoint bits is their sum. *)
Lemma lor_disjoint_add (a b k : Z) :
  0 <= k -> a mod 2 ^ k = 0 -> 0 <= b < 2 ^ k -> Z.lor a b = a + b.
Proof.
  intros Hk Ha Hb.
  assert (Hland : Z.land a b = 0).
  { apply Z.bits_inj'. intros n Hn.
    rewrite Z.land_spec, Z.bits_0.
    destruct (Z.lt_ge_cases n k) as [Hlt|Hge].
    - apply Z.mod_divide in Ha; [|lia]. destruct Ha as [q ->].
      rewrite Z.mul_pow2_bits_low by lia. reflexivity.
    - rewrite <- (Z.mod_small b (2 ^ k)) by lia.
      rewrite Z.mod_pow2_bits_high by lia. apply andb_false_r. }
  rewrite <- Z.lxor_lor by exact Hland.
  symmetry. apply Z.add_nocarry_lxor. exact Hland.
Qed.

Lemma land_low_mask (c k : Z) :
  0 <= k -> Z.land c (2 ^ k - 1) = c mod 2 ^ k.
Proof.
  intros Hk. rewrite <- Z.land_ones by lia. f_equal.
  rewrite Z.ones_equiv. lia.
Qed.

Ltac zdm :=
  cbn [Z.pow Z.pow_pos Pos.iter Z.mul Pos.mul] in *;
  Z.div_mod_to_equations; lia.

Ltac bool_hyps :=
  repeat match goal with
  | H : _ && _ = true |- _ => apply andb_true_iff in H; destruct H
  | H : (_ <=? _) = true |- _ => apply Z.leb_le in H
  | H : (_ <? _) = true |- _ => apply Z.ltb_lt in H
  | H : (_ <=? _) = false |- _ => apply Z.leb_gt in H
  | H : (_ <? _) = false |- _ => apply Z.ltb_ge in H
  | H : negb _ = true |- _ => apply negb_true_iff in H
  | H : _ && _ = false |- _ => apply andb_false_iff in H
  end.

Ltac decide_cmp :=
  repeat match goal with
  | |- context [Z.leb ?a ?b] => destruct (Z.leb_spec a b); try lia
  | |- context [Z.ltb ?a ?b] => destruct (Z.ltb_spec a b); try lia
  end; cbn [andb orb negb].

Lemma decode2_inv c0 c1 r :
  decode2 c0 c1 = Some r ->
  RuneSelf <= r /\ encode_bytes r = [c0; c1] /\ 0x80 <= c1.
Proof.
  unfold decode2, is_cont, t2, t3, locb, hicb, mask2, maskx, rune1Max.
  intros H.
  destruct (_ && _ && _) eqn:Hc in H; [|discriminate].
  bool_hyps.
  change 31 with (2 ^ 5 - 1) in H. change 63 with (2 ^ 6 - 1) in H.
  rewrite !land_low_mask in H by lia.
  rewrite Z.shiftl_mul_pow2 in H by lia.
  rewrite (lor_disjoint_add _ _ 6) in H by zdm.
  destruct (_ <? _) eqn:Hr in H; [|discriminate].
  injection H as <-.
  remember (_ + _) as r eqn:Er in *.
  bool_hyps.
  split; [unfold RuneSelf; lia|]. split; [|lia].
  unfold encode_bytes, rune1Max, rune2Max, byte_trunc, t2, tx, maskx.
  change 63 with (2 ^ 6 - 1).
  rewrite !land_low_mask by lia. rewrite !Z.shiftr_div_pow2 by lia.
  assert (r <= 2047) by (subst r; zdm).
  decide_cmp;
  rewrite (lor_disjoint_add 192 _ 5) by (subst r; zdm);
  rewrite (lor_disjoint_add 128 _ 6) by zdm;
  subst r; repeat f_equal; zdm.
Qed.

Lemma decode3_inv c0 c1 c2 r :
  decode3 c0 c1 c2 = Some r ->
  RuneSelf <= r /\ encode_bytes r = [c0; c1; c2] /\ 0x80 <= c1 /\ 0x80 <= c2.
Proof.
  unfold decode3, is_cont, t3, t4, locb, hicb, mask3, maskx, rune2Max,
    surrogateMin, surrogateMax.
  intros H.
  destruct (_ && _ && _ && _) eqn:Hc in H; [|discriminate].
  bool_hyps.
  change 15 with (2 ^ 4 - 1) in H. change 63 with (2 ^ 6 - 1) in H.
  rewrite !land_low_mask in H by lia.
  rewrite !Z.shiftl_mul_pow2 in H by lia.
  rewrite (lor_disjoint_add (_ * 2 ^ 12) _ 12) in H by zdm.
  rewrite (lor_disjoint_add _ _ 6) in H by zdm.
  destruct (_ && _) eqn:Hr in H; [|discriminate].
  injection H as <-.
  remember (_ + _ + _) as r eqn:Er in *.
  assert (Hr2 : 2047 < r <= 65535 /\ ~ (55296 <= r <= 57343)).
  { bool_hyps. split; [subst r; zdm|]. intuition lia. }
  clear Hr.
  split; [unfold RuneSelf; lia|]. split; [|lia].
  unfold encode_bytes, rune1Max, rune2Max, rune3Max, MaxRune, surrogateMin,
    surrogateMax, byte_trunc, t3, tx, maskx.
  change 63 with (2 ^ 6 - 1).
  rewrite !land_low_mask by lia. rewrite !Z.shiftr_div_pow2 by lia.
  decide_cmp;
  rewrite (lor_disjoint_add 224 _ 4) by zdm;
  rewrite !(lor_disjoint_add 128 _ 6) by zdm;
  subst r; repeat f_equal; zdm.
Qed.

Lemma decode4_inv c0 c1 c2 c3 r :
  decode4 c0 c1 c2 c3 = Some r ->
  RuneSelf <= r /\ encode_bytes r = [c0; c1; c2; c3]
  /\ 0x80 <= c1 /\ 0x80 <= c2 /\ 0x80 <= c3.
Proof.
  unfold decode4, is_cont, t4, t5, locb, hicb, mask4, maskx, rune3Max,
    MaxRune.
  intros H.
  destruct (_ && _ && _ && _ && _) eqn:Hc in H; [|discriminate].
  bool_hyps.
  change 7 with (2 ^ 3 - 1) in H. change 63 with (2 ^ 6 - 1) in H.
  rewrite !land_low_mask in H by lia.
  rewrite !Z.shiftl_mul_pow2 in H by lia.
  rewrite (lor_disjoint_add (_ * 2 ^ 18) _ 18) in H by zdm.
  rewrite (lor_disjoint_add (_ + _) (_ * 2 ^ 6) 12) in H by zdm.
  rewrite (lor_disjoint_add _ _ 6) in H by zdm.
  destruct (_ && _) eqn:Hr in H; [|discriminate].
  injection H as <-.
  remember (_ + _ + _ + _) as r eqn:Er in *.
  bool_hyps.
  split; [unfold RuneSelf; lia|]. split; [|lia].
  unfold encode_bytes, rune1Max, rune2Max, rune3Max, MaxRune, surrogateMin,
    surrogateMax, byte_trunc, t4, tx, maskx.
  change 63 with (2 ^ 6 - 1).
  rewrite !land_low_mask by lia. rewrite !Z.shiftr_div_pow2 by lia.
  decide_cmp;
  rewrite (lor_disjoint_add 240 _ 3) by (subst r; zdm);
  rewrite !(lor_disjoint_add 128 _ 6) by zdm;
  subst r; repeat f_equal; zdm.
Qed.

End utf8_facts.

(** ** The placeholder rewriter *)

Section rewriter.
Import utf8.

Lemma markers_high (a : ascii) (s : string) :
  RuneSelf <= byte_val a -> markers (String a s) = markers s.
Proof.
  intros Ha. simpl. rewrite byte_val_marker.
  destruct (Z.eqb_spec (byte_val a) 63) as [E|_]; [|reflexivity].
  unfold RuneSelf in Ha. lia.
Qed.

Lemma markers_app (s1 s2 : string) :
  markers (s1 +:+ s2) = (markers s1 + markers s2)%nat.
Proof.
  induction s1 as [|a s1 IH]; simpl; [reflexivity|].
  rewrite IH. destruct (Ascii.eqb a marker); reflexivity.
Qed.

Lemma AppendRune_bytes (p : string) (r : rune) (bs : list ascii) :
  encode_bytes r = byte_val <$> bs ->
  AppendRune p r = p +:+ String.string_of_list_ascii bs.
Proof.
  intros E. unfold AppendRune. rewrite E. do 2 f_equal. clear E.
  induction bs as [|a bs IH]; simpl; [reflexivity|].
  rewrite byte_of_val. f_equal. exact IH.
Qed.

Lemma encode_ascii (c : Z) : 0 <= c < RuneSelf -> encode_bytes c = [c].
Proof.
  unfold RuneSelf, encode_bytes, rune1Max, byte_trunc. intros Hc.
  destruct (Z.leb_spec 0 c); [|lia]. destruct (Z.leb_spec c 127); [|lia].
  simpl. rewrite Z.mod_small by lia. reflexivity.
Qed.

Lemma step_other (b : Builder) (result : string) (r : rune) :
  r <> 63 ->
  convertPlaceholders_step (b, result) r = (b, AppendRune result r).
Proof.
  intros Hr. unfold convertPlaceholders_step.
  destruct (Z.eqb_spec r 63); [contradiction|reflexivity].
Qed.

Lemma step_marker (b : Builder) (result : string) :
  int_min <= argIndex b < int_max ->
  convertPlaceholders_step (b, result) 63 =
  (set_argIndex (argIndex b + 1) b,
   result +:+ placeholder (argIndex b + 1)).
Proof.
  intros Hb. unfold convertPlaceholders_step, incr_argIndex. simpl.
  rewrite int_incr_succ by exact Hb. reflexivity.
Qed.

(** The loop leaves everything but the counter alone, and moves the counter
    by the number of markers, whatever the bytes of the string are. *)
Lemma convert_loop_counter (s : string) :
  forall (b : Builder) (result : string),
    int_min <= argIndex b ->
    argIndex b + Z.of_nat (markers s) <= int_max ->
    (fold_left convertPlaceholders_step (range_runes s) (b, result)).1 =
    set_argIndex (argIndex b + Z.of_nat (markers s)) b.
Proof.
  functional induction (range_runes s) using range_runes_ind;
    intros b result Hlo Hhi;
    try (apply Z.ltb_ge in e0);
    try match goal with
    | H : decode2 _ _ = Some _ |- _ =>
        destruct (decode2_inv _ _ _ H) as (Hr & _ & Hc1)
    | H : decode3 _ _ _ = Some _ |- _ =>
        destruct (decode3_inv _ _ _ _ H) as (Hr & _ & Hc1 & Hc2)
    | H : decode4 _ _ _ _ = Some _ |- _ =>
        destruct (decode4_inv _ _ _ _ _ H) as (Hr & _ & Hc1 & Hc2 & Hc3)
    end;
    try (rewrite !markers_high in Hhi |- * by (unfold RuneSelf in *; lia);
         cbn [fold_left];
         rewrite step_other by (unfold RuneSelf, RuneError in *; lia);
         first [ apply IHl; assumption
               | rewrite IHl by assumption;
                 rewrite ?markers_high by (unfold RuneSelf in *; lia);
                 reflexivity ]).
  - simpl. destruct b; unfold set_argIndex; simpl. f_equal. lia.
  - apply Z.ltb_lt in e0. cbn [fold_left markers] in *.
    rewrite byte_val_marker in *.
    destruct (Z.eqb_spec (byte_val b0) 63) as [E|E].
    + rewrite E, step_marker by lia.
      rewrite IHl by (cbn [set_argIndex argIndex]; lia).
      unfold set_argIndex; cbn [parts args argIndex pool table tx].
      f_equal; lia.
    + rewrite step_other by exact E. apply IHl; assumption.
Qed.

Ltac decoded :=
  try match goal with
  | H : (_ <? RuneSelf) = false |- _ => apply Z.ltb_ge in H
  end;
  try match goal with
  | H : decode2 _ _ = Some _ |- _ =>
      destruct (decode2_inv _ _ _ H) as (Hr & Henc & Hc1)
  | H : decode3 _ _ _ = Some _ |- _ =>
      destruct (decode3_inv _ _ _ _ H) as (Hr & Henc & Hc1 & Hc2)
  | H : decode4 _ _ _ _ = Some _ |- _ =>
      destruct (decode4_inv _ _ _ _ _ H) as (Hr & Henc & Hc1 & Hc2 & Hc3)
  end.

Ltac valid_case Hv :=
  cbn [ValidString] in Hv;
  repeat match goal with
  | E : (_ <? RuneSelf) = _ |- _ => rewrite E in Hv
  | E : decode2 _ _ = _ |- _ => rewrite E in Hv
  | E : decode3 _ _ _ = _ |- _ => rewrite E in Hv
  | E : decode4 _ _ _ _ = _ |- _ => rewrite E in Hv
  end;
  try discriminate Hv.

(** On a well-formed string without markers the loop copies the string. *)
Lemma convert_loop_segment (s : string) :
  ValidString s = true -> markers s = O ->
  forall (b : Builder) (result : string),
    fold_left convertPlaceholders_step (range_runes s) (b, result) =
    (b, result +:+ s).
Proof.
  functional induction (range_runes s) using range_runes_ind;
    intros Hv Hm b result; valid_case Hv; decoded.
  - simpl. now rewrite append_nil_r.
  - cbn [markers] in Hm. rewrite byte_val_marker in Hm.
    destruct (Z.eqb_spec (byte_val b0) 63) as [E|E]; [discriminate|].
    cbn [fold_left]. rewrite step_other by exact E.
    rewrite IHl by assumption. f_equal.
    rewrite (AppendRune_bytes _ _ [b0]).
    + simpl. now rewrite append_assoc.
    + apply encode_ascii. apply Z.ltb_lt in e0.
      pose proof (byte_val_range b0). lia.
  - rewrite !markers_high in Hm by (unfold RuneSelf in *; lia).
    cbn [fold_left]. rewrite step_other by (unfold RuneSelf in *; lia).
    rewrite IHl by assumption. f_equal.
    rewrite (AppendRune_bytes _ _ [b0; b1]) by exact Henc.
    simpl. now rewrite append_assoc.
  - rewrite !markers_high in Hm by (unfold RuneSelf in *; lia).
    cbn [fold_left]. rewrite step_other by (unfold RuneSelf in *; lia).
    rewrite IHl by assumption. f_equal.
    rewrite (AppendRune_bytes _ _ [b0; b1; b2]) by exact Henc.
    simpl. now rewrite append_assoc.
  - rewrite !markers_high in Hm by (unfold RuneSelf in *; lia).
    cbn [fold_left]. rewrite step_other by (unfold RuneSelf in *; lia).
    rewrite IHl by assumption. f_equal.
    rewrite (AppendRune_bytes _ _ [b0; b1; b2; b3]) by exact Henc.
    simpl. now rewrite append_assoc.
Qed.

(** Decoding does not look across the end of a well-formed prefix. *)
Lemma range_runes_app (s1 s2 : string) :
  ValidString s1 = true ->
  range_runes (s1 +:+ s2) = range_runes s1 ++ range_runes s2.
Proof.
  functional induction (range_runes s1) using range_runes_ind;
    intros Hv; valid_case Hv.
  - reflexivity.
  - simpl. rewrite e0. f_equal. apply IHl. exact Hv.
  - simpl. rewrite e0, e2. f_equal. apply IHl. exact Hv.
  - simpl. rewrite e0, e2, e4. f_equal. apply IHl. exact Hv.
  - simpl. rewrite e0, e2, e4, e6. f_equal. apply IHl. exact Hv.
Qed.

Lemma range_runes_marker (s : string) :
  range_runes (String marker s) = 63 :: range_runes s.
Proof. reflexivity. Qed.

Lemma marker_free_markers (s : string) :
  marker_free s = true -> markers s = O.
Proof. unfold marker_free. apply Nat.eqb_eq. Qed.

Lemma set_argIndex_same (b : Builder) (n : Z) :
  n = argIndex b -> set_argIndex n b = b.
Proof. intros ->. destruct b. reflexivity. Qed.

(** The loop on segments joined by markers, from any counter and any
    buffer contents. *)
Lemma convert_loop_numbered (segs : list string) :
  forall (b : Builder) (result : string),
    segs <> [] ->
    Forall (fun seg => ValidString seg = true /\ marker_free seg = true)
           segs ->
    int_min <= argIndex b ->
    argIndex b + Z.of_nat (length segs - 1) <= int_max ->
    fold_left convertPlaceholders_step (range_runes (Join segs "?"))
              (b, result) =
    (set_argIndex (argIndex b + Z.of_nat (length segs - 1)) b,
     result +:+ numbered (argIndex b) segs).
Proof.
  induction segs as [|seg rest IH]; intros b result Hne Hall Hlo Hhi;
    [contradiction|].
  apply Forall_cons in Hall as [[Hv Hm] Hrest].
  apply marker_free_markers in Hm.
  destruct rest as [|seg' rest].
  - cbn [Join numbered length]. rewrite convert_loop_segment by assumption.
    f_equal. symmetry. apply set_argIndex_same. simpl. lia.
  - change (Join (seg :: seg' :: rest) "?")
      with (seg +:+ String marker (Join (seg' :: rest) "?")).
    rewrite range_runes_app by exact Hv.
    rewrite range_runes_marker, fold_left_app.
    rewrite convert_loop_segment by assumption.
    cbn [fold_left]. cbn [length] in Hhi.
    rewrite step_marker by lia.
    rewrite IH; [ | discriminate | exact Hrest
                | cbn [set_argIndex argIndex]; lia
                | cbn [set_argIndex argIndex length] in *; lia ].
    cbn [numbered]. rewrite !append_assoc.
    unfold set_argIndex; cbn [length parts args argIndex pool table tx].
    do 2 f_equal. lia.
Qed.

(** *** Every string is its segments joined by markers *)

Lemma split_markers_cons (s : string) :
  exists seg segs, split_markers s = seg :: segs.
Proof.
  destruct s as [|a rest]; [now exists "", []|].
  cbn [split_markers]. destruct (Ascii.eqb a marker); [now eexists _, _|].
  destruct (split_markers rest); now eexists _, _.
Qed.

Lemma split_markers_high (a : ascii) (s seg : string) (segs : list string) :
  RuneSelf <= byte_val a ->
  split_markers s = seg :: segs ->
  split_markers (String a s) = String a seg :: segs.
Proof.
  intros Ha Hs. cbn [split_markers]. rewrite byte_val_marker, Hs.
  destruct (Z.eqb_spec (byte_val a) 63) as [E|_]; [|reflexivity].
  unfold RuneSelf in Ha. lia.
Qed.

Lemma Join_split_markers (s : string) : Join (split_markers s) "?" = s.
Proof.
  induction s as [|a rest IH]; [reflexivity|].
  cbn [split_markers].
  destruct (split_markers_cons rest) as (seg & segs & Hs).
  rewrite Hs in IH |- *.
  destruct (Ascii.eqb_spec a marker) as [->|_].
  - change (Join ("" :: seg :: segs) "?")
      with (String marker (Join (seg :: segs) "?")).
    now rewrite IH.
  - destruct segs as [|seg' segs].
    + cbn [Join] in IH |- *. now rewrite IH.
    + change (Join (String a seg :: seg' :: segs) "?")
        with (String a (Join (seg :: seg' :: segs) "?")).
      now rewrite IH.
Qed.

Lemma split_markers_free (s : string) :
  Forall (fun seg => marker_free seg = true) (split_markers s).
Proof.
  induction s as [|a rest IH]; [repeat constructor|].
  cbn [split_markers].
  destruct (Ascii.eqb a marker) eqn:Ha; [constructor; [reflexivity | exact IH]|].
  destruct (split_markers rest) as [|seg segs].
  - repeat constructor. unfold marker_free. cbn [markers]. now rewrite Ha.
  - apply Forall_cons in IH as [Hseg Hsegs]. constructor; [|exact Hsegs].
    unfold marker_free in *. cbn [markers]. now rewrite Ha.
Qed.

Lemma split_markers_length (s : string) :
  length (split_markers s) = S (markers s).
Proof.
  induction s as [|a rest IH]; [reflexivity|].
  cbn [split_markers markers].
  destruct (Ascii.eqb a marker); [cbn [length]; now rewrite IH|].
  destruct (split_markers rest); [discriminate | exact IH].
Qed.

(** Cutting a well-formed string at its markers leaves well-formed
    segments: a marker is never part of a multi-byte sequence. *)
Lemma split_markers_valid (s : string) :
  ValidString s = true ->
  Forall (fun seg => ValidString seg = true) (split_markers s).
Proof.
  functional induction (range_runes s) using range_runes_ind;
    intros Hv; valid_case Hv;
    try match goal with
    | H : (_ <? RuneSelf) = false |- _ =>
        pose proof H as Hhigh; apply Z.ltb_ge in Hhigh
    end;
    try match goal with
    | H : decode2 _ _ = Some _ |- _ =>
        destruct (decode2_inv _ _ _ H) as (_ & _ & Hc1)
    | H : decode3 _ _ _ = Some _ |- _ =>
        destruct (decode3_inv _ _ _ _ H) as (_ & _ & Hc1 & Hc2)
    | H : decode4 _ _ _ _ = Some _ |- _ =>
        destruct (decode4_inv _ _ _ _ _ H) as (_ & _ & Hc1 & Hc2 & Hc3)
    end;
    try specialize (IHl Hv).
  - repeat constructor.
  - cbn [split_markers]. destruct (Ascii.eqb b0 marker).
    + constructor; [reflexivity | exact IHl].
    + destruct (split_markers s1) as [|seg segs];
        [repeat constructor; cbn [ValidString]; now rewrite e0|].
      apply Forall_cons in IHl as [Hseg Hsegs]. constructor; [|exact Hsegs].
      cbn [ValidString]. now rewrite e0.
  - destruct (split_markers_cons s2) as (seg & segs & Hs).
    rewrite Hs in IHl. apply Forall_cons in IHl as [Hseg Hsegs].
    rewrite (split_markers_high b0 _ (String b1 seg) segs);
      [ | exact Hhigh | apply split_markers_high; [unfold RuneSelf; lia | exact Hs] ].
    constructor; [|exact Hsegs]. cbn [ValidString]. now rewrite e0, e2.
  - destruct (split_markers_cons s3) as (seg & segs & Hs).
    rewrite Hs in IHl. apply Forall_cons in IHl as [Hseg Hsegs].
    rewrite (split_markers_high b0 _ (String b1 (String b2 seg)) segs);
      [ | exact Hhigh | repeat (apply split_markers_high; [unfold RuneSelf; lia|]); exact Hs ].
    constructor; [|exact Hsegs]. cbn [ValidString]. now rewrite e0, e2, e4.
  - destruct (split_markers_cons s4) as (seg & segs & Hs).
    rewrite Hs in IHl. apply Forall_cons in IHl as [Hseg Hsegs].
    rewrite (split_markers_high b0 _ (String b1 (String b2 (String b3 seg))) segs);
      [ | exact Hhigh | repeat (apply split_markers_high; [unfold RuneSelf; lia|]); exact Hs ].
    constructor; [|exact Hsegs]. cbn [ValidString]. now rewrite e0, e2, e4, e6.
Qed.
End rewriter.

(** Whatever the bytes of the condition are, [convertPlaceholders] changes
    nothing of the builder but the counter, which moves by the number of
    markers. *)
Lemma convertPlaceholders_counter (query : string) (b : Builder) :
  int_min <= argIndex b ->
  argIndex b + Z.of_nat (markers query) <= int_max ->
  (convertPlaceholders query b).2 =
  set_argIndex (argIndex b + Z.of_nat (markers query)) b.
Proof.
  intros Hlo Hhi. unfold convertPlaceholders.
  pose proof (convert_loop_counter query b StringsBuilder.empty Hlo Hhi) as H.
  destruct (fold_left _ _ _) as [b1 result]. exact H.
Qed.

(** A well-formed condition without markers comes back verbatim and the
    builder is left as it was. *)
Lemma convertPlaceholders_verbatim (query : string) (b : Builder) :
  utf8.ValidString query = true -> markers query = O ->
  convertPlaceholders query b = (query, b).
Proof.
  intros Hv Hm. unfold convertPlaceholders.
  rewrite convert_loop_segment by assumption. reflexivity.
Qed.

(** The rewriter on marker-free, well-formed segments joined by markers. *)
Lemma convertPlaceholders_segments (segs : list string) (b : Builder) :
  segs <> [] ->
  Forall (fun seg => utf8.ValidString seg = true /\ marker_free seg = true)
         segs ->
  int_min <= argIndex b ->
  argIndex b + Z.of_nat (length segs - 1) <= int_max ->
  convertPlaceholders (Join segs "?") b =
  (numbered (argIndex b) segs,
   set_argIndex (argIndex b + Z.of_nat (length segs - 1)) b).
Proof.
  intros Hne Hall Hlo Hhi. unfold convertPlaceholders.
  rewrite convert_loop_numbered by assumption. reflexivity.
Qed.

(** C1 (as amended).  For every condition that is well-formed UTF-8 and
    every counter [c] that stays within the range of [int]: the condition
    is its marker-free segments joined by the marker [?], one more segment
    than markers; the result is the same segments, unchanged (a [$n] already
    in a segment is not renumbered), with the Kth marker replaced by the
    placeholder numbered [c + K]; the counter moves by the number of
    markers and nothing else of the builder changes.  Without any marker
    the condition comes back verbatim and the builder is unchanged. *)
Theorem convertPlaceholders_numbers_markers (query : string) (b : Builder) :
  utf8.ValidString query = true ->
  int_min <= argIndex b ->
  argIndex b + Z.of_nat (markers query) <= int_max ->
  let segs := split_markers query in
  (Join segs "?" = query
   /\ Forall (fun seg => marker_free seg = true) segs
   /\ length segs = S (markers query))
  /\ convertPlaceholders query b =
     (numbered (argIndex b) segs,
      set_argIndex (argIndex b + Z.of_nat (markers query)) b)
  /\ (markers query = O -> convertPlaceholders query b = (query, b)).
Proof.
  intros Hv Hlo Hhi segs.
  pose proof (Join_split_markers query) as Hjoin.
  pose proof (split_markers_free query) as Hfree.
  pose proof (split_markers_length query) as Hlen.
  pose proof (split_markers_valid query Hv) as Hvalid.
  fold segs in Hjoin, Hfree, Hlen, Hvalid.
  split; [repeat split; assumption|]. split.
  - assert (Hn : (length segs - 1)%nat = markers query) by lia.
    rewrite <- Hjoin at 1.
    rewrite convertPlaceholders_segments.
    + rewrite Hn. reflexivity.
    + intros E. rewrite E in Hlen. discriminate.
    + apply Forall_and. split; assumption.
    + exact Hlo.
    + rewrite Hn. exact Hhi.
  - intros Hm. now apply convertPlaceholders_verbatim.
Qed.

Lemma convertPlaceholders_numbers_markers_witness :
  convertPlaceholders "id = ? AND name = ? AND note = '$9'"
                      (set_argIndex 3 New) =
  ("id = $4 AND name = $5 AND note = '$9'", set_argIndex 5 New).
Proof.
  refine (proj1 (proj2 (convertPlaceholders_numbers_markers
                          "id = ? AND name = ? AND note = '$9'"
                          (set_argIndex 3 New) _ _ _))).
  - reflexivity.
  - vm_compute. discriminate.
  - vm_compute. discriminate.
Defined.

(** C1, as stated, fails on two kinds of input.  A condition that is not
    well-formed UTF-8 does not come back verbatim although it has no marker:
    the byte 0xFF is rewritten to the three bytes of U+FFFD.  And at the
    largest [int] the counter wraps around, so the marker is not numbered
    [c + 1]. *)
Lemma convertPlaceholders_not_verbatim :
  markers (String "255" "") = O
  /\ (convertPlaceholders (String "255" "") New).1 <> String "255" ""
  /\ (convertPlaceholders (String "255" "") New).1
     = String "239" (String "191" (String "189" ""))
  /\ (convertPlaceholders "?" (set_argIndex int_max New)).1
     <> placeholder (int_max + 1)
  /\ (convertPlaceholders "?" (set_argIndex int_max New)).1
     = "$-9223372036854775808".
Proof.
  split; [reflexivity|]. split; [vm_compute; discriminate|].
  split; [vm_compute; reflexivity|]. split; [vm_compute; discriminate|].
  vm_compute. reflexivity.
Qed.

(** ** Values *)

Lemma Values_loop (values : list value) :
  forall (placeholders : list string) (b : Builder),
    int_min <= argIndex b ->
    argIndex b + Z.of_nat (length values) <= int_max ->
    fold_left Values_step values (placeholders, b) =
    (placeholders
       ++ (placeholder <$> seqZ (argIndex b + 1) (Z.of_nat (length values))),
     set_argIndex (argIndex b + Z.of_nat (length values)) b).
Proof.
  induction values as [|v values IH]; intros placeholders b Hlo Hhi.
  - cbn [fold_left length]. rewrite seqZ_nil by lia.
    rewrite app_nil_r. f_equal. symmetry. apply set_argIndex_same.
    simpl. lia.
  - cbn [fold_left length] in *. unfold Values_step at 2, incr_argIndex.
    cbn [set_argIndex argIndex].
    rewrite int_incr_succ by lia.
    rewrite IH by (cbn [set_argIndex argIndex]; lia).
    cbn [set_argIndex argIndex parts args pool table tx].
    rewrite (seqZ_cons (argIndex b + 1)) by lia.
    rewrite fmap_cons, <- app_assoc. cbn [app].
    replace (Z.pred (Z.of_nat (S (length values))))
      with (Z.of_nat (length values)) by lia.
    replace (Z.succ (argIndex b + 1)) with (argIndex b + 1 + 1) by lia.
    unfold set_argIndex; cbn [parts args argIndex pool table tx].
    do 2 f_equal. lia.
Qed.

(** ** Set *)

Lemma bound_values_cons (col : string) (val : value)
    (entries : list (string * value)) :
  bound_values ((col, val) :: entries) =
  if is_raw val then bound_values entries else val :: bound_values entries.
Proof.
  unfold bound_values. cbn [fmap list_fmap snd]. rewrite filter_cons.
  destruct (is_raw val); [rewrite decide_False by discriminate | rewrite decide_True by reflexivity];
    reflexivity.
Qed.

Lemma Set_loop (entries : list (string * value)) :
  forall (sets : list string) (b : Builder),
    int_min <= argIndex b ->
    argIndex b + Z.of_nat (length (bound_values entries)) <= int_max ->
    fold_left Set_step entries (sets, b) =
    (sets ++ assignments (argIndex b) entries,
     set_args (args b ++ bound_values entries)
       (set_argIndex
          (argIndex b + Z.of_nat (length (bound_values entries))) b)).
Proof.
  induction entries as [|[col val] entries IH]; intros sets b Hlo Hhi.
  - cbn. rewrite !app_nil_r. f_equal. destruct b. unfold set_args, set_argIndex.
    simpl. f_equal. lia.
  - cbn [fold_left]. unfold Set_step at 2.
    rewrite bound_values_cons in *. unfold is_raw in *. cbn [assignments].
    destruct (as_SQLExpression val) as [sql|] eqn:Hraw.
    + rewrite IH by assumption. rewrite <- app_assoc. reflexivity.
    + cbn [length] in Hhi.
      unfold incr_argIndex. cbn [append_args set_argIndex argIndex set_args args].
      rewrite int_incr_succ by lia.
      rewrite IH by (cbn [append_args set_argIndex argIndex set_args args]; lia).
      unfold append_args, set_args, set_argIndex;
        cbn [parts args argIndex pool table tx length].
      rewrite <- !app_assoc. cbn [app]. do 2 f_equal. lia.
Qed.

(** ** The argument list runs parallel to the placeholders *)

Lemma exec_effect (c : call) (b : Builder) :
  int_min <= argIndex b ->
  argIndex b + Z.of_nat (generated c) <= int_max ->
  args (exec c b) = args b ++ supplied c
  /\ argIndex (exec c b) = argIndex b + Z.of_nat (generated c).
Proof.
  intros Hlo Hhi.
  destruct c as [t|columns|tbl|condition xs|condition xs|condition xs|columns
                |tbl|entries|tbl columns|values|tbl|tbl|columns];
    cbn [exec generated supplied] in *;
    try (cbn; rewrite ?app_nil_r; split; [reflexivity | lia]).
  - (* Where *)
    unfold Where.
    set (b1 := if where_guard (parts b) then append_parts ["WHERE"] b else b).
    assert (Hb1 : args b1 = args b /\ argIndex b1 = argIndex b)
      by (subst b1; destruct (where_guard _); split; reflexivity).
    destruct Hb1 as [Ha Hi].
    pose proof (convertPlaceholders_counter condition b1) as Hc.
    rewrite Hi in Hc. specialize (Hc Hlo Hhi).
    destruct (convertPlaceholders condition b1) as [cond b2].
    cbn [snd] in Hc. subst b2. cbn. rewrite Ha. split; reflexivity.
  - (* AndWhere *)
    unfold AndWhere.
    pose proof (convertPlaceholders_counter condition b Hlo Hhi) as Hc.
    destruct (convertPlaceholders condition b) as [cond b2].
    cbn [snd] in Hc. subst b2. cbn. split; reflexivity.
  - (* OrWhere *)
    unfold OrWhere.
    pose proof (convertPlaceholders_counter condition b Hlo Hhi) as Hc.
    destruct (convertPlaceholders condition b) as [cond b2].
    cbn [snd] in Hc. subst b2. cbn. split; reflexivity.
  - (* Set *)
    unfold Set_in_order. rewrite Set_loop by assumption.
    cbn. split; reflexivity.
  - (* Values *)
    unfold Values. rewrite Values_loop by assumption.
    cbn. split; reflexivity.
  - (* Returning *)
    unfold Returning. destruct (0 <? length columns)%nat; cbn;
      rewrite ?app_nil_r; split; (reflexivity || lia).
Qed.

Lemma run_effect (cs : list call) :
  forall b : Builder,
    Forall paired cs ->
    int_min <= argIndex b ->
    argIndex b + Z.of_nat (length (all_supplied cs)) <= int_max ->
    args (run cs b) = args b ++ all_supplied cs
    /\ argIndex (run cs b) = argIndex b + Z.of_nat (length (all_supplied cs)).
Proof.
  unfold all_supplied.
  induction cs as [|c cs IH]; intros b Hp Hlo Hhi.
  - cbn. rewrite app_nil_r. split; [reflexivity | lia].
  - apply Forall_cons in Hp as [Hc Hcs]. unfold paired in Hc.
    cbn [fmap list_fmap concat] in *. rewrite length_app in Hhi |- *.
    destruct (exec_effect c b Hlo ltac:(lia)) as [Ha Hi].
    change (run (c :: cs) b) with (run cs (exec c b)).
    destruct (IH (exec c b) Hcs ltac:(lia) ltac:(lia)) as [Ha' Hi'].
    rewrite Ha', Hi', Ha, Hi, <- app_assoc. split; [reflexivity | lia].
Qed.

Lemma run_app (cs1 cs2 : list call) (b : Builder) :
  run (cs1 ++ cs2) b = run cs2 (run cs1 b).
Proof. unfold run. apply fold_left_app. Qed.

(** C2.  Take a builder [b] whose counter equals the length of its argument
    list ([New] is one; rendering and binding keep both), and any chain of
    calls on it in which every call is given as many values as it generates
    placeholders (and which leaves the argument list no longer than a Go
    slice can be).  Take any call [c] of the chain; it runs on the builder
    [b0].  Before [c] the counter equals the length of the argument list;
    [c] moves the counter by the number of placeholders it generates, so
    these are numbered [argIndex b0 + 1, ...]; at the end of the chain the
    argument list has as many entries as the counter says, it holds the
    supplied values in call order, and the value supplied for the (K+1)th
    placeholder of [c] is the entry at (1-indexed) position
    [argIndex b0 + K + 1], the number of that placeholder. *)
Theorem args_parallel_to_placeholders
    (b : Builder) (pre post : list call) (c : call) :
  argIndex b = Z.of_nat (length (args b)) ->
  Forall paired (pre ++ c :: post) ->
  Z.of_nat (length (args b) + length (all_supplied (pre ++ c :: post)))
    <= int_max ->
  let b0 := run pre b in
  let b1 := exec c b0 in
  let bN := run (pre ++ c :: post) b in
  argIndex b0 = Z.of_nat (length (args b0))
  /\ argIndex b1 = argIndex b0 + Z.of_nat (generated c)
  /\ argIndex bN = Z.of_nat (length (args bN))
  /\ args bN = args b ++ all_supplied (pre ++ c :: post)
  /\ forall (K : nat) (v : value),
       supplied c !! K = Some v ->
       args bN !! (Z.to_nat (argIndex b0) + K)%nat = Some v.
Proof.
  intros Hinv Hp Hhi b0 b1 bN.
  apply Forall_app in Hp as [Hpre Hp]. apply Forall_cons in Hp as [Hc Hpost].
  unfold all_supplied in Hhi.
  rewrite fmap_app, concat_app, length_app in Hhi.
  cbn [fmap list_fmap concat] in Hhi. rewrite length_app in Hhi.
  fold (all_supplied pre) in Hhi. fold (all_supplied post) in Hhi.
  assert (Hmin : int_min <= 0) by (unfold int_min; lia).
  destruct (run_effect pre b Hpre) as [Ha0 Hi0]; [lia | lia |].
  fold b0 in Ha0, Hi0.
  unfold paired in Hc.
  destruct (exec_effect c b0) as [Ha1 Hi1]; [lia | lia |].
  fold b1 in Ha1, Hi1.
  assert (HbN : bN = run post b1).
  { subst bN b1 b0. rewrite run_app. reflexivity. }
  destruct (run_effect post b1 Hpost) as [HaN HiN]; [lia | lia |].
  rewrite <- HbN in HaN, HiN.
  split; [rewrite Hi0, Ha0, length_app; lia|].
  split; [exact Hi1|].
  split.
  { rewrite HiN, HaN, Hi1, Hi0, Ha1, Ha0, !length_app. lia. }
  split.
  { rewrite HaN, Ha1, Ha0. unfold all_supplied.
    rewrite fmap_app, concat_app. cbn [fmap list_fmap concat].
    rewrite <- !app_assoc. reflexivity. }
  intros K v HK.
  rewrite HaN, Ha1, Hi0, Hinv, <- Nat2Z.inj_add, Nat2Z.id, <- app_assoc.
  rewrite lookup_app_r by (rewrite Ha0, length_app; lia).
  rewrite Ha0, length_app.
  replace (length (args b) + length (all_supplied pre) + K
           - (length (args b) + length (all_supplied pre)))%nat
    with K by lia.
  apply lookup_app_l_Some. exact HK.
Qed.

Lemma args_parallel_to_placeholders_witness :
  let pre := [CUpdate "users";
              CSet [("name", VString "New Name");
                    ("seen", VExpr (mkRaw "NOW()"))]] in
  let c := CWhere "id = ? AND age > ?" [VInt 7; VInt 18] in
  let post := [CReturning ["id"]] in
  argIndex (run pre New) = 1
  /\ args (run (pre ++ c :: post) New) !! 2%nat = Some (VInt 18).
Proof.
  intros pre c post.
  destruct (args_parallel_to_placeholders New pre post c)
    as (H0 & _ & _ & _ & HK).
  - reflexivity.
  - repeat constructor.
  - vm_compute. discriminate.
  - split; [exact H0|]. exact (HK 1%nat (VInt 18) eq_refl).
Defined.

(** ** Rendering *)

Lemma write_parts_Join (ps : list string) :
  forall (i : nat) (sb part : string),
    write_parts (S i) ps (sb +:+ part) = sb +:+ Join (part :: ps) " ".
Proof.
  induction ps as [|q rest IH]; intros i sb part; [reflexivity|].
  cbn [write_parts Nat.ltb Nat.leb].
  unfold StringsBuilder.WriteString, StringsBuilder.WriteByte.
  rewrite IH. change (Join (part :: q :: rest) " ")
    with (part +:+ " " +:+ Join (q :: rest) " ").
  now rewrite !append_assoc.
Qed.

Lemma write_parts_empty_buffer (ps : list string) :
  write_parts 0 ps "" = Join ps " ".
Proof.
  destruct ps as [|part rest]; [reflexivity|].
  cbn [write_parts Nat.ltb Nat.leb].
  apply (write_parts_Join rest 0 "" part).
Qed.

Lemma Get_clean (pick : option nat) (p : SyncPool.t) :
  Forall (fun sb => sb = "") (SyncPool.idle p) ->
  (SyncPool.Get pick p).1 = ""
  /\ Forall (fun sb => sb = "") (SyncPool.idle (SyncPool.Get pick p).2).
Proof.
  intros Hp. unfold SyncPool.Get.
  destruct pick as [i|]; [|split; [reflexivity | exact Hp]].
  destruct (SyncPool.idle p !! i) as [sb|] eqn:Hi;
    [|split; [reflexivity | exact Hp]].
  split.
  - cbn. apply (Forall_lookup_1 _ _ _ _ Hp Hi).
  - cbn. apply Forall_delete. exact Hp.
Qed.

(** Rendering a builder whose pool holds only reset buffers. *)
Lemma Builder_String_clean (pick : option nat) (b : Builder) :
  pool_clean b ->
  exists p,
    Builder_String pick b = Some (Join (parts b) " ", set_pool (Some p) b)
    /\ Forall (fun sb => sb = "") (SyncPool.idle p).
Proof.
  intros (p & Hpool & Hp). unfold Builder_String. rewrite Hpool.
  destruct (Get_clean pick p Hp) as [Hsb Hp1].
  destruct (SyncPool.Get pick p) as [sb p1]. cbn [fst snd] in Hsb, Hp1.
  subst sb. eexists. split.
  - unfold StringsBuilder.contents.
    rewrite (write_parts_empty_buffer (parts b)). reflexivity.
  - cbn. constructor; [reflexivity | exact Hp1].
Qed.

Lemma convertPlaceholders_frame (query : string) (b : Builder) :
  exists n, (convertPlaceholders query b).2 = set_argIndex n b.
Proof.
  unfold convertPlaceholders.
  generalize StringsBuilder.empty. generalize (utf8.range_runes query).
  intros rs. revert b. induction rs as [|r rs IH]; intros b result.
  - exists (argIndex b). cbn. symmetry. now apply set_argIndex_same.
  - cbn [fold_left]. unfold convertPlaceholders_step at 2.
    destruct (r =? 63).
    + destruct (IH (incr_argIndex b)
                  (StringsBuilder.WriteString result
                     (placeholder (argIndex (incr_argIndex b))))) as [n Hn].
      exists n. destruct (fold_left _ _ _) as [b1 res]. cbn [snd] in *.
      rewrite Hn. reflexivity.
    + apply IH.
Qed.

Lemma Values_loop_frame (values : list value) :
  forall (placeholders : list string) (b : Builder),
    exists n, (fold_left Values_step values (placeholders, b)).2
              = set_argIndex n b.
Proof.
  induction values as [|v values IH]; intros placeholders b.
  - exists (argIndex b). cbn. symmetry. now apply set_argIndex_same.
  - cbn [fold_left]. unfold Values_step at 2.
    destruct (IH (placeholders ++ [placeholder (argIndex (incr_argIndex b))])
                (incr_argIndex b)) as [n Hn].
    exists n. rewrite Hn. reflexivity.
Qed.

Lemma Set_loop_frame (entries : list (string * value)) :
  forall (sets : list string) (b : Builder),
    exists n xs, (fold_left Set_step entries (sets, b)).2
                 = set_args xs (set_argIndex n b).
Proof.
  induction entries as [|[col val] entries IH]; intros sets b.
  - exists (argIndex b), (args b). cbn. destruct b. reflexivity.
  - cbn [fold_left]. unfold Set_step at 2.
    destruct (as_SQLExpression val); [apply IH|].
    edestruct IH as (n & xs & Hn). exists n, xs. rewrite Hn. reflexivity.
Qed.

Lemma exec_pool (c : call) (b : Builder) : pool (exec c b) = pool b.
Proof.
  destruct c; cbn [exec]; try reflexivity.
  - unfold Where.
    set (b1 := if where_guard (parts b) then append_parts ["WHERE"] b else b).
    assert (Hb1 : pool b1 = pool b) by (subst b1; now destruct (where_guard _)).
    destruct (convertPlaceholders_frame condition b1) as [n Hn].
    destruct (convertPlaceholders condition b1) as [cond b2].
    cbn [snd] in Hn. subst b2. exact Hb1.
  - unfold AndWhere.
    destruct (convertPlaceholders_frame condition b) as [n Hn].
    destruct (convertPlaceholders condition b) as [cond b2].
    cbn [snd] in Hn. subst b2. reflexivity.
  - unfold OrWhere.
    destruct (convertPlaceholders_frame condition b) as [n Hn].
    destruct (convertPlaceholders condition b) as [cond b2].
    cbn [snd] in Hn. subst b2. reflexivity.
  - unfold Set_in_order.
    destruct (Set_loop_frame entries [] b) as (n & xs & Hn).
    destruct (fold_left _ _ _) as [sets b1]. cbn [snd] in Hn. subst b1.
    reflexivity.
  - unfold Values.
    destruct (Values_loop_frame values [] b) as (n & Hn).
    destruct (fold_left _ _ _) as [sets b1]. cbn [snd] in Hn. subst b1.
    reflexivity.
  - unfold Returning. now destruct (0 <? length columns)%nat.
Qed.

Lemma Bind_pool ToLower dest b m b' :
  Bind ToLower dest b = Some (m, b') -> pool b' = pool b.
Proof.
  unfold Bind. intros H.
  repeat match type of H with
  | context [match ?x with _ => _ end] => destruct x; try discriminate
  end; injection H as _ <-; reflexivity.
Qed.

(** Every builder of a builder's life has a pool, and the buffers idle in
    it are reset. *)
Lemma reachable_pool_clean (b : Builder) : reachable b -> pool_clean b.
Proof.
  induction 1 as [|c b _ IH|updates b b' _ IH HSet|pick b s b' _ IH HStr
                 |ToLower dest b m b' _ IH HBind].
  - exists SyncPool.fresh. split; [reflexivity | constructor].
  - destruct IH as (p & Hp & Hclean). exists p.
    rewrite exec_pool. split; assumption.
  - destruct HSet as (entries & _ & ->). destruct IH as (p & Hp & Hclean).
    exists p. split; [|exact Hclean].
    rewrite <- Hp. apply (exec_pool (CSet entries)).
  - destruct (Builder_String_clean pick b IH) as (p & Heq & Hclean).
    rewrite Heq in HStr. injection HStr as _ <-.
    exists p. split; [reflexivity | exact Hclean].
  - destruct IH as (p & Hp & Hclean). exists p.
    rewrite (Bind_pool _ _ _ _ _ HBind). split; assumption.
Qed.

(** C7.  For every builder of a builder's life (made by [New] and changed
    only through its methods), whatever buffers the pool hands out: two
    calls of [String] in a row return the same string, the fragments joined
    by single spaces, and neither call changes the fragment sequence, the
    argument list, the counter, the table or the transaction. *)
Theorem String_is_a_pure_read (b : Builder) :
  reachable b ->
  forall pick1 pick2 : option nat,
  exists (s : string) (b1 b2 : Builder),
    Builder_String pick1 b = Some (s, b1)
    /\ Builder_String pick2 b1 = Some (s, b2)
    /\ s = Join (parts b) " "
    /\ (parts b1, args b1, argIndex b1, table b1, tx b1)
       = (parts b, args b, argIndex b, table b, tx b)
    /\ (parts b2, args b2, argIndex b2, table b2, tx b2)
       = (parts b, args b, argIndex b, table b, tx b).
Proof.
  intros Hb pick1 pick2.
  destruct (Builder_String_clean pick1 b (reachable_pool_clean b Hb))
    as (p1 & H1 & Hp1).
  assert (Hclean1 : pool_clean (set_pool (Some p1) b))
    by (exists p1; split; [reflexivity | exact Hp1]).
  destruct (Builder_String_clean pick2 _ Hclean1) as (p2 & H2 & _).
  exists (Join (parts b) " "), (set_pool (Some p1) b),
         (set_pool (Some p2) (set_pool (Some p1) b)).
  repeat split; assumption.
Qed.

Lemma String_is_a_pure_read_witness :
  let b := run [CSelect ["id"; "name"]; CFrom "users";
                CWhere "id = ?" [VInt 1]] New in
  exists b1 b2,
    Builder_String None b = Some ("SELECT id, name FROM users WHERE id = $1", b1)
    /\ Builder_String (Some 0%nat) b1
       = Some ("SELECT id, name FROM users WHERE id = $1", b2)
    /\ args b2 = [VInt 1] /\ argIndex b2 = 1.
Proof.
  intros b.
  assert (Hb : reachable b).
  { subst b. unfold run. cbn [fold_left]. repeat apply reachable_exec.
    apply reachable_New. }
  destruct (String_is_a_pure_read b Hb None (Some 0%nat))
    as (s & b1 & b2 & H1 & H2 & Hs & _ & Hb2).
  exists b1, b2. subst s.
  split; [exact H1|]. split; [exact H2|].
  injection Hb2 as _ Ha Hi _ _. rewrite Ha, Hi. split; reflexivity.
Defined.
(** ** Scenarios and the clause methods *)

(** A fresh builder's pool is empty, so [Get] makes a new buffer whatever it
    picks. *)
Ltac render_fresh pick :=
  destruct pick as [?|]; (vm_compute; eexists; repeat split).

(** C4.  [Select("*").From("users").Where("age > ?", 18)
    .AndWhere("status = ?", "active").OrderBy("created_at DESC")] on a fresh
    builder renders
    ["SELECT * FROM users WHERE age > $1 AND status = $2 ORDER BY created_at DESC"]
    and the argument list is [[18, "active"]], before and after rendering. *)
Theorem select_where_and_order_scenario (pick : option nat) :
  let b :=
    OrderBy ["created_at DESC"]
      (AndWhere "status = ?" [VString "active"]
         (Where "age > ?" [VInt 18]
            (From "users" (Select ["*"] New)))) in
  exists b',
    Builder_String pick b =
    Some ("SELECT * FROM users WHERE age > $1 AND status = $2 ORDER BY created_at DESC",
          b')
    /\ args b = [VInt 18; VString "active"]
    /\ args b' = [VInt 18; VString "active"].
Proof. render_fresh pick. Qed.

(** [Values] in full: [N] placeholders numbered from the counter, one
    fragment, the values appended in order. *)
Lemma Values_spec (values : list value) (b : Builder) :
  int_min <= argIndex b ->
  argIndex b + Z.of_nat (length values) <= int_max ->
  Values values b =
  append_args values
    (append_parts
       ["VALUES ("
        +:+ Join (placeholder
                    <$> seqZ (argIndex b + 1) (Z.of_nat (length values))) ", "
        +:+ ")"]
       (set_argIndex (argIndex b + Z.of_nat (length values)) b)).
Proof.
  intros Hlo Hhi. unfold Values. rewrite Values_loop by assumption.
  reflexivity.
Qed.

(** C6.  [Insert("users","name","email").Values("a","b")] on a fresh builder
    renders ["INSERT INTO users (name, email) VALUES ($1, $2)"] with the
    argument list [["a","b"]].  In general, as long as the counter stays in
    the range of [int], [Values] with [N] values appends the one fragment
    [VALUES ($(c+1), ..., $(c+N))], numbered straight from the counter [c]
    (the values are not scanned for markers), moves the counter to [c + N]
    and appends the [N] values to the argument list in the same order. *)
Theorem Values_generates_fresh_placeholders :
  (forall pick : option nat,
     let b := Values [VString "a"; VString "b"]
                (Insert "users" ["name"; "email"] New) in
     exists b',
       Builder_String pick b =
       Some ("INSERT INTO users (name, email) VALUES ($1, $2)", b')
       /\ args b = [VString "a"; VString "b"]
       /\ args b' = [VString "a"; VString "b"])
  /\ (forall (values : list value) (b : Builder),
        int_min <= argIndex b ->
        argIndex b + Z.of_nat (length values) <= int_max ->
        let c := argIndex b in
        let N := Z.of_nat (length values) in
        parts (Values values b) =
          parts b
          ++ ["VALUES (" +:+ Join (placeholder <$> seqZ (c + 1) N) ", "
              +:+ ")"]
        /\ args (Values values b) = args b ++ values
        /\ argIndex (Values values b) = c + N
        /\ (pool (Values values b), table (Values values b),
            tx (Values values b)) = (pool b, table b, tx b)).
Proof.
  split.
  - intros pick. render_fresh pick.
  - intros values b Hlo Hhi c N. rewrite Values_spec by assumption.
    repeat split.
Qed.

Lemma Values_generates_fresh_placeholders_witness :
  let b := set_argIndex 2 (set_args [VInt 1; VInt 2] New) in
  parts (Values [VString "?"; VBool true; VNil] b)
    = ["VALUES ($3, $4, $5)"]
  /\ args (Values [VString "?"; VBool true; VNil] b)
     = [VInt 1; VInt 2; VString "?"; VBool true; VNil]
  /\ argIndex (Values [VString "?"; VBool true; VNil] b) = 5.
Proof.
  intros b.
  destruct (proj2 Values_generates_fresh_placeholders
              [VString "?"; VBool true; VNil] b)
    as (Hp & Ha & Hi & _).
  - vm_compute. discriminate.
  - vm_compute. discriminate.
  - split; [exact Hp|]. split; [exact Ha | exact Hi].
Defined.

(** ** Set *)

Lemma Set_in_order_spec (entries : list (string * value)) (b : Builder) :
  int_min <= argIndex b ->
  argIndex b + Z.of_nat (length (bound_values entries)) <= int_max ->
  Set_in_order entries b =
  append_parts ["SET " +:+ Join (assignments (argIndex b) entries) ", "]
    (set_args (args b ++ bound_values entries)
       (set_argIndex
          (argIndex b + Z.of_nat (length (bound_values entries))) b)).
Proof.
  intros Hlo Hhi. unfold Set_in_order. rewrite Set_loop by assumption.
  reflexivity.
Qed.

Lemma bound_values_Permutation (entries entries' : list (string * value)) :
  entries ≡ₚ entries' -> bound_values entries ≡ₚ bound_values entries'.
Proof. intros H. unfold bound_values. now rewrite H. Qed.

Lemma bound_values_none (entries : list (string * value)) :
  Forall (fun e => is_raw e.2 = true) entries -> bound_values entries = [].
Proof.
  induction 1 as [|[col val] entries Hraw _ IH]; [reflexivity|].
  rewrite bound_values_cons. cbn [snd] in Hraw. rewrite Hraw. exact IH.
Qed.

(** The assignment of the entry visited at position [i], and where its value
    goes: [k] non-raw values were visited before it. *)
Lemma assignments_lookup (entries : list (string * value)) :
  forall (c : Z) (i : nat) (col : string) (val : value),
    entries !! i = Some (col, val) ->
    let k := Z.of_nat (length (bound_values (take i entries))) in
    assignments c entries !! i =
    Some (col +:+ " = " +:+
          match as_SQLExpression val with
          | Some sql => sql
          | None => placeholder (c + k + 1)
          end).
Proof.
  induction entries as [|[col0 val0] entries IH]; intros c i col val Hi;
    [discriminate|].
  destruct i as [|i].
  - injection Hi as -> ->. cbn [take assignments].
    change (bound_values []) with (@nil value). cbn [length].
    destruct (as_SQLExpression val); cbn [lookup list_lookup];
      [reflexivity|].
    do 4 f_equal; lia.
  - cbn [lookup list_lookup] in Hi. cbn [take assignments].
    rewrite bound_values_cons. unfold is_raw.
    destruct (as_SQLExpression val0) as [sql0|]; cbn [lookup list_lookup].
    + apply IH. exact Hi.
    + etransitivity; [exact (IH (c + 1) i col val Hi)|]. cbn zeta.
      destruct (as_SQLExpression val); [reflexivity|].
      cbn [length]. do 4 f_equal; lia.
Qed.

Lemma bound_values_lookup (entries : list (string * value)) :
  forall (i : nat) (col : string) (val : value),
    entries !! i = Some (col, val) ->
    as_SQLExpression val = None ->
    bound_values entries !! length (bound_values (take i entries)) = Some val.
Proof.
  induction entries as [|[col0 val0] entries IH]; intros i col val Hi Hval;
    [discriminate|].
  destruct i as [|i].
  - injection Hi as -> ->. cbn [take]. rewrite bound_values_cons.
    unfold is_raw. rewrite Hval. reflexivity.
  - cbn [lookup list_lookup] in Hi. cbn [take].
    rewrite !bound_values_cons.
    destruct (is_raw val0); [exact (IH i col val Hi Hval)|].
    cbn [length lookup list_lookup]. exact (IH i col val Hi Hval).
Qed.

(** C5.  [Set(updates)], whatever order the map is visited in, as long as
    the counter stays in the range of [int].  The call returns; it appends
    one [SET] fragment whose assignments follow the visiting order; a value
    that implements [SQLExpression] is embedded as its literal fragment
    [col = sql], takes no placeholder and adds no argument; the (k+1)th
    other value visited is written [col = $(c+k+1)] and is the (k+1)th value
    appended to the argument list.  So the counter and the argument list
    grow by the number of values that are not raw expressions, and not at
    all when every value is one. *)
Theorem Set_embeds_raw_expressions
    (updates : gmap string value) (b : Builder) :
  int_min <= argIndex b ->
  argIndex b + Z.of_nat (length (bound_values (map_to_list updates)))
    <= int_max ->
  (exists b', Builder_Set updates b b')
  /\ forall b', Builder_Set updates b b' ->
     exists (entries : list (string * value)) (sets : list string),
       entries ≡ₚ map_to_list updates
       /\ parts b' = parts b ++ ["SET " +:+ Join sets ", "]
       /\ length sets = length entries
       /\ (forall (i : nat) (col : string) (val : value),
             entries !! i = Some (col, val) ->
             let k := length (bound_values (take i entries)) in
             match as_SQLExpression val with
             | Some sql => sets !! i = Some (col +:+ " = " +:+ sql)
             | None =>
               sets !! i
               = Some (col +:+ " = "
                       +:+ placeholder (argIndex b + Z.of_nat k + 1))
               /\ args b' !! (length (args b) + k)%nat = Some val
             end)
       /\ args b' = args b ++ bound_values entries
       /\ argIndex b' = argIndex b + Z.of_nat (length (bound_values entries))
       /\ length (bound_values entries)
          = length (bound_values (map_to_list updates))
       /\ (pool b', table b', tx b') = (pool b, table b, tx b)
       /\ (Forall (fun e => is_raw e.2 = true) entries ->
           args b' = args b /\ argIndex b' = argIndex b).
Proof.
  intros Hlo Hhi. split.
  - exists (Set_in_order (map_to_list updates) b), (map_to_list updates).
    split; reflexivity.
  - intros b' (entries & Hperm & ->).
    exists entries, (assignments (argIndex b) entries).
    pose proof (Permutation_length (bound_values_Permutation _ _ Hperm))
      as Hlen.
    rewrite Set_in_order_spec by (rewrite ?Hlen; assumption).
    split; [exact Hperm|]. split; [reflexivity|].
    split.
    { generalize (argIndex b). clear. induction entries as [|[col val] ? IH];
        intros c; [reflexivity|].
      cbn [assignments]. destruct (as_SQLExpression val); cbn [length];
        now rewrite IH. }
    split.
    { intros i col val Hi k.
      pose proof (assignments_lookup entries (argIndex b) i col val Hi) as Ha.
      cbn zeta in Ha.
      destruct (as_SQLExpression val) as [sql|] eqn:Hval; [exact Ha|].
      split; [exact Ha|].
      cbn [append_parts set_parts set_args args].
      rewrite lookup_app_r by lia.
      replace (length (args b) + k - length (args b))%nat with k by lia.
      exact (bound_values_lookup entries i col val Hi Hval). }
    split; [reflexivity|]. split; [reflexivity|]. split; [exact Hlen|].
    split; [reflexivity|].
    intros Hraw. rewrite (bound_values_none _ Hraw). cbn.
    rewrite app_nil_r. split; [reflexivity | lia].
Qed.

Lemma Set_embeds_raw_expressions_witness :
  let updates : gmap string value :=
    <["name" := VString "Ann"]> {["count" := VExpr (mkRaw "count + 1")]} in
  let b := Update "counters" New in
  exists b', Builder_Set updates b b' /\ args b' = [VString "Ann"]
             /\ argIndex b' = 1.
Proof.
  intros updates b.
  destruct (Set_embeds_raw_expressions updates b) as [[b' Hb'] Hall].
  - vm_compute. discriminate.
  - vm_compute. discriminate.
  - exists b'. split; [exact Hb'|].
    destruct (Hall b' Hb') as (entries & sets & Hperm & _ & _ & _ & Ha & Hi
                               & Hlen & _).
    rewrite Hi, Hlen, Ha. clear Hi Ha.
    assert (Hb : bound_values entries = [VString "Ann"]).
    { apply Permutation_singleton_r.
      rewrite (bound_values_Permutation _ _ Hperm). vm_compute. reflexivity. }
    rewrite Hb. split; reflexivity.
Defined.

(** ** Where *)

Lemma where_guard_nil : where_guard [] = false.
Proof. reflexivity. Qed.

(** On a non-empty fragment sequence the guard looks at the text of the
    last fragment only. *)
Lemma where_guard_snoc (ps : list string) (p : string) :
  where_guard (ps ++ [p]) = negb (HasSuffix p "WHERE").
Proof.
  unfold where_guard. rewrite length_app. cbn [length].
  replace (length ps + 1 - 1)%nat with (length ps) by lia.
  rewrite list_lookup_middle by reflexivity.
  destruct (Nat.ltb_spec 0 (length ps + 1)); [reflexivity | lia].
Qed.

(** The keyword is inserted only if the last fragment is not the text
    [WHERE]. *)
Lemma where_guard_only_if (ps : list string) :
  where_guard ps = true -> last ps <> Some "WHERE".
Proof.
  destruct ps as [|p ps _] using rev_ind; [discriminate|].
  rewrite where_guard_snoc, last_snoc. intros Hg [= ->]. discriminate.
Qed.

(** C9.  [Where] on a builder without fragments (and with its pool, as
    every builder made by [New] has) inserts no [WHERE] keyword: the only
    fragment is the rewritten condition, and the builder renders as exactly
    that. *)
Theorem Where_on_empty_builder_inserts_no_keyword
    (condition : string) (xs : list value) (b : Builder) :
  parts b = [] ->
  pool_clean b ->
  parts (Where condition xs b) = [(convertPlaceholders condition b).1]
  /\ forall pick : option nat,
     exists b',
       Builder_String pick (Where condition xs b)
       = Some ((convertPlaceholders condition b).1, b').
Proof.
  intros Hparts Hpool.
  assert (Hp : parts (Where condition xs b)
               = [(convertPlaceholders condition b).1]).
  { unfold Where. rewrite Hparts, where_guard_nil.
    destruct (convertPlaceholders_frame condition b) as [n Hn].
    destruct (convertPlaceholders condition b) as [cond b2].
    cbn [fst snd] in *. subst b2. cbn. rewrite Hparts. reflexivity. }
  split; [exact Hp|]. intros pick.
  assert (Hclean : pool_clean (Where condition xs b)).
  { destruct Hpool as (p & Hpool & Hidle). exists p.
    split; [|exact Hidle]. rewrite <- Hpool.
    apply (exec_pool (CWhere condition xs)). }
  destruct (Builder_String_clean pick _ Hclean) as (p & Heq & _).
  rewrite Hp in Heq. eexists. exact Heq.
Qed.

Lemma Where_on_empty_builder_inserts_no_keyword_witness :
  parts (Where "id = ? OR id = ?" [VInt 1; VInt 2] New)
    = ["id = $1 OR id = $2"]
  /\ exists b', Builder_String None (Where "id = ? OR id = ?"
                                       [VInt 1; VInt 2] New)
                = Some ("id = $1 OR id = $2", b').
Proof.
  destruct (Where_on_empty_builder_inserts_no_keyword
              "id = ? OR id = ?" [VInt 1; VInt 2] New) as [Hp Hs].
  - reflexivity.
  - exists SyncPool.fresh. split; [reflexivity | constructor].
  - split; [exact Hp | exact (Hs None)].
Defined.

(** C3, evaluated.  Two calls of [Where] in immediate succession insert the
    keyword twice: when the second call runs, the last fragment is the
    first condition, not the keyword. *)
Theorem Where_twice_repeats_keyword (pick : option nat) :
  let b :=
    Where "b = ?" [VInt 2]
      (Where "a = ?" [VInt 1] (From "users" (Select ["*"] New))) in
  exists b',
    Builder_String pick b
    = Some ("SELECT * FROM users WHERE a = $1 WHERE b = $2", b')
    /\ parts b
       = ["SELECT *"; "FROM users"; "WHERE"; "a = $1"; "WHERE"; "b = $2"].
Proof. destruct pick as [?|]; (vm_compute; eexists; repeat split). Qed.

(** ** Returning *)

(** C10.  [Returning] without columns leaves the builder as it is; with at
    least one column it appends the fragment [RETURNING] and, after it, the
    columns joined by [", "], and changes nothing else. *)
Theorem Returning_frame (b : Builder) :
  Returning [] b = b
  /\ forall (column : string) (columns : list string),
     let b' := Returning (column :: columns) b in
     parts b' = parts b ++ ["RETURNING"; Join (column :: columns) ", "]
     /\ (args b', argIndex b', pool b', table b', tx b')
        = (args b, argIndex b, pool b, table b, tx b).
Proof.
  split; [reflexivity|]. intros column columns b'. split; reflexivity.
Qed.

(** ** Bind *)

Lemma Bind_loop_panic (fields : list StructField) :
  fold_left Bind_step fields None = None.
Proof. induction fields as [|f fields IH]; [reflexivity | exact IH]. Qed.

Lemma tagged_column (field : StructField) (col : string) :
  tagged field && String.eqb (column field) col = true
  <-> tagged field = true /\ column field = col.
Proof.
  rewrite andb_true_iff. split; intros [Ht Hc]; split; try exact Ht.
  - now apply String.eqb_eq.
  - now apply String.eqb_eq.
Qed.

(** The loop of [Bind], when no tagged field is unexported: every column
    ends up with the value of the last field that declares it. *)
Lemma Bind_loop_lookup (fields : list StructField) :
  forall m0 : gmap string value,
    Forall (fun f => tagged f = true -> fieldExported f = true) fields ->
    exists m,
      fold_left Bind_step fields (Some m0) = Some m
      /\ forall col,
           m !! col = match bound_column fields col with
                      | Some v => Some v
                      | None => m0 !! col
                      end.
Proof.
  induction fields as [|f fields IH]; intros m0 Hexp.
  - exists m0. split; reflexivity.
  - apply Forall_cons in Hexp as [Hf Hexp].
    cbn [fold_left]. unfold Bind_step at 2. fold (column f). fold (tagged f).
    destruct (tagged f) eqn:Ht.
    + rewrite (Hf eq_refl).
      destruct (IH (<[column f := fieldValue f]> m0) Hexp) as (m & Hm & Hl).
      exists m. split; [exact Hm|]. intros col. rewrite Hl.
      cbn [bound_column]. rewrite Ht. cbn [andb].
      destruct (bound_column fields col); [reflexivity|].
      destruct (String.eqb_spec (column f) col) as [->|Hne].
      * apply lookup_insert_eq.
      * now apply lookup_insert_ne.
    + destruct (IH m0 Hexp) as (m & Hm & Hl).
      exists m. split; [exact Hm|]. intros col. rewrite Hl.
      cbn [bound_column]. rewrite Ht. cbn [andb].
      destruct (bound_column fields col); reflexivity.
Qed.

Lemma Bind_loop_unexported (fields : list StructField) :
  forall st : option (gmap string value),
    Exists (fun f => tagged f = true /\ fieldExported f = false) fields ->
    fold_left Bind_step fields st = None.
Proof.
  induction fields as [|f fields IH]; intros st Hex.
  - inversion Hex.
  - cbn [fold_left]. apply Exists_cons in Hex as [[Ht He]|Hex].
    + destruct st as [m0|]; [|apply Bind_loop_panic].
      unfold Bind_step. fold (column f). fold (tagged f).
      rewrite Ht, He. apply Bind_loop_panic.
    + apply IH. exact Hex.
Qed.

Lemma bound_column_Some (fields : list StructField) (col : string) (v : value) :
  bound_column fields col = Some v ->
  exists f, f ∈ fields /\ tagged f = true /\ column f = col
            /\ fieldValue f = v.
Proof.
  induction fields as [|f fields IH]; [discriminate|].
  cbn [bound_column].
  destruct (bound_column fields col) as [v'|].
  - intros [= <-]. destruct (IH eq_refl) as (f' & Hin & Hrest).
    exists f'. split; [now right | exact Hrest].
  - destruct (tagged f && String.eqb (column f) col) eqn:Hf; [|discriminate].
    intros [= <-]. apply tagged_column in Hf as [Ht Hc].
    exists f. split; [now left|]. repeat split; assumption.
Qed.

Lemma bound_column_None (fields : list StructField) (col : string) :
  Forall (fun f => tagged f = false) fields -> bound_column fields col = None.
Proof.
  induction 1 as [|f fields Hf _ IH]; [reflexivity|].
  cbn [bound_column]. rewrite IH, Hf. reflexivity.
Qed.

Lemma bound_column_distinct (fields : list StructField) (f : StructField) :
  NoDup (column <$> filter (fun f => tagged f = true) fields) ->
  f ∈ fields -> tagged f = true ->
  bound_column fields (column f) = Some (fieldValue f).
Proof.
  induction fields as [|g fields IH]; intros Hnd Hin Ht; [inversion Hin|].
  cbn [bound_column]. rewrite filter_cons in Hnd.
  apply elem_of_cons in Hin as [->|Hin].
  - rewrite decide_True in Hnd by exact Ht. rewrite fmap_cons in Hnd.
    apply NoDup_cons in Hnd as [Hnotin _].
    destruct (bound_column fields (column g)) as [v|] eqn:Hb.
    + exfalso. apply Hnotin.
      apply bound_column_Some in Hb as (f' & Hin' & Ht' & Hc' & _).
      rewrite <- Hc'. apply list_elem_of_fmap_2.
      apply list_elem_of_filter. split; assumption.
    + rewrite Ht, String.eqb_refl. reflexivity.
  - rewrite IH; [reflexivity | | exact Hin | exact Ht].
    destruct (decide (tagged g = true)); [|exact Hnd].
    rewrite fmap_cons in Hnd. now apply NoDup_cons in Hnd as [_ Hnd].
Qed.

(** [Bind] panics when a field that carries the tag is unexported. *)
Lemma Bind_unexported_panics
    (ToLower : string -> string) (typeName : string)
    (fields : list StructField) (b : Builder) :
  Exists (fun f => tagged f = true /\ fieldExported f = false) fields ->
  Bind ToLower (RStruct typeName fields) b = None
  /\ Bind ToLower (RPtr (RStruct typeName fields)) b = None.
Proof.
  intros Hex. unfold Bind.
  rewrite (Bind_loop_unexported fields (Some ∅) Hex). split; reflexivity.
Qed.

(** When [Bind] returns, it has changed nothing of the builder but,
    possibly, the table. *)
Lemma Bind_frame ToLower dest b m b' :
  Bind ToLower dest b = Some (m, b') ->
  (parts b', args b', argIndex b', pool b', tx b')
  = (parts b, args b, argIndex b, pool b, tx b).
Proof.
  unfold Bind. intros H.
  repeat match type of H with
  | context [match ?x with _ => _ end] => destruct x; try discriminate
  end; injection H as _ <-; reflexivity.
Qed.

Section Bind_facts.
Variable ToLower : string -> string.

(** C8 (as amended).  For a struct, or a pointer (not nil) to a struct,
    in which every field that carries a non-empty [db] tag is exported:
    [Bind] returns a mapping from column names to values in which every
    column holds the current value of the last field that declares it.
    Every entry comes from a tagged field; fields without the tag are
    left out; when the declared column names are distinct, every tagged
    field is in the mapping under its column name; without tagged fields
    the mapping is empty.  The table of the builder becomes the
    lower-cased type name when it was empty and is left alone otherwise;
    nothing else of the builder changes. *)
Theorem Bind_maps_tagged_fields
    (typeName : string) (fields : list StructField) (dest : reflected)
    (b : Builder) :
  dest = RStruct typeName fields \/ dest = RPtr (RStruct typeName fields) ->
  Forall (fun f => tagged f = true -> fieldExported f = true) fields ->
  exists (m : gmap string value) (b' : Builder),
    Bind ToLower dest b = Some (m, b')
    /\ (forall col, m !! col = bound_column fields col)
    /\ (forall col v,
          m !! col = Some v ->
          exists f, f ∈ fields /\ tagged f = true /\ column f = col
                    /\ fieldValue f = v)
    /\ (NoDup (column <$> filter (fun f => tagged f = true) fields) ->
        forall f, f ∈ fields -> tagged f = true ->
                  m !! column f = Some (fieldValue f))
    /\ (Forall (fun f => tagged f = false) fields -> m = ∅)
    /\ (table b = "" -> b' = set_table (ToLower typeName) b)
    /\ (table b <> "" -> b' = b).
Proof.
  intros Hdest Hexp.
  destruct (Bind_loop_lookup fields ∅ Hexp) as (m & Hm & Hl).
  assert (Hl' : forall col, m !! col = bound_column fields col).
  { intros col. rewrite Hl, lookup_empty.
    destruct (bound_column fields col); reflexivity. }
  exists m, (if String.eqb (table b) ""
             then set_table (ToLower typeName) b else b).
  split.
  { destruct Hdest as [-> | ->]; unfold Bind; rewrite Hm; reflexivity. }
  split; [exact Hl'|].
  split.
  { intros col v Hv. rewrite Hl' in Hv. now apply bound_column_Some. }
  split.
  { intros Hnd f Hin Ht. rewrite Hl'. now apply bound_column_distinct. }
  split.
  { intros Hnone. apply map_eq. intros col.
    rewrite Hl', lookup_empty. now apply bound_column_None. }
  split.
  - intros ->. reflexivity.
  - intros Hne. apply String.eqb_neq in Hne. rewrite Hne. reflexivity.
Qed.

End Bind_facts.

Lemma Bind_maps_tagged_fields_witness :
  let fields :=
    [mkField "ID" true [("json", "id"); ("db", "id")] (VInt 7);
     mkField "Name" true [("db", "name")] (VString "Ann");
     mkField "cache" false [] VNil] in
  exists m b',
    Bind (fun s => "user") (RPtr (RStruct "User" fields)) New = Some (m, b')
    /\ m !! "id" = Some (VInt 7) /\ m !! "name" = Some (VString "Ann")
    /\ m !! "cache" = None /\ table b' = "user".
Proof.
  intros fields.
  destruct (Bind_maps_tagged_fields (fun s => "user") "User" fields
              (RPtr (RStruct "User" fields)) New)
    as (m & b' & HB & Hl & _ & _ & _ & Ht & _).
  - right. reflexivity.
  - repeat constructor; discriminate.
  - exists m, b'. split; [exact HB|].
    rewrite !Hl, (Ht eq_refl). repeat split.
Defined.

(** C8, as stated, fails on three kinds of input.  When two fields declare
    the same column, the mapping holds the later field only: the earlier
    tagged field is not in it.  When a field that carries the tag is
    unexported, [reflect] refuses to hand out its value and [Bind] panics.
    And [Bind] panics on a nil pointer to a struct. *)
Lemma Bind_not_every_tagged_field :
  let twice :=
    [mkField "ID" true [("db", "id")] (VInt 1);
     mkField "LegacyID" true [("db", "id")] (VInt 2)] in
  let hidden := [mkField "id" false [("db", "id")] (VInt 1)] in
  (exists m b',
     Bind (fun s => s) (RStruct "User" twice) New = Some (m, b')
     /\ m !! "id" = Some (VInt 2)
     /\ m !! "id" <> Some (fieldValue (mkField "ID" true [("db", "id")] (VInt 1)))
     /\ size m = 1%nat)
  /\ Bind (fun s => s) (RStruct "user" hidden) New = None
  /\ Bind (fun s => s) RNilPtr New = None.
Proof.
  intros twice hidden. split; [|split; reflexivity].
  eexists _, _. split; [reflexivity|].
  split; [vm_compute; reflexivity|].
  split; [vm_compute; discriminate | vm_compute; reflexivity].
Qed.

(** * Further properties of the code *)

(** ** Fragments and arguments are only ever appended *)

Lemma Set_loop_appends (entries : list (string * value)) :
  forall (sets : list string) (b : Builder),
    exists zs,
      parts (fold_left Set_step entries (sets, b)).2 = parts b
      /\ args (fold_left Set_step entries (sets, b)).2 = args b ++ zs
      /\ pool (fold_left Set_step entries (sets, b)).2 = pool b.
Proof.
  induction entries as [|[col val] entries IH]; intros sets b.
  - exists []. cbn. now rewrite app_nil_r.
  - cbn [fold_left]. unfold Set_step at 2 4 6.
    destruct (as_SQLExpression val); [apply IH|].
    edestruct IH as (zs & Hp & Ha & Hpool).
    exists (val :: zs). rewrite Hp, Ha, Hpool. cbn.
    now rewrite <- app_assoc.
Qed.

Lemma exec_appends (c : call) (b : Builder) :
  exists (ps : list string) (xs : list value),
    parts (exec c b) = parts b ++ ps
    /\ args (exec c b) = args b ++ xs
    /\ pool (exec c b) = pool b.
Proof.
  destruct c as [t|columns|tbl|condition xs|condition xs|condition xs|columns
                |tbl|entries|tbl columns|values|tbl|tbl|columns];
    cbn [exec];
    try solve [ exists [], []; cbn; rewrite ?app_nil_r; repeat split
              | eexists [_], []; cbn; rewrite ?app_nil_r; repeat split ].
  - unfold Where.
    set (b1 := if where_guard (parts b) then append_parts ["WHERE"] b else b).
    assert (Hb1 : exists ps, parts b1 = parts b ++ ps /\ args b1 = args b
                             /\ pool b1 = pool b).
    { subst b1. destruct (where_guard _).
      - now exists ["WHERE"].
      - exists []. now rewrite app_nil_r. }
    destruct Hb1 as (ps & Hp & Ha & Hpool).
    destruct (convertPlaceholders_frame condition b1) as [n Hn].
    destruct (convertPlaceholders condition b1) as [cond b2].
    cbn [snd] in Hn. subst b2. exists (ps ++ [cond]), xs. cbn.
    rewrite Hp, Ha, Hpool, <- app_assoc. repeat split.
  - unfold AndWhere.
    destruct (convertPlaceholders_frame condition b) as [n Hn].
    destruct (convertPlaceholders condition b) as [cond b2].
    cbn [snd] in Hn. subst b2. now exists ["AND"; cond], xs.
  - unfold OrWhere.
    destruct (convertPlaceholders_frame condition b) as [n Hn].
    destruct (convertPlaceholders condition b) as [cond b2].
    cbn [snd] in Hn. subst b2. now exists ["OR"; cond], xs.
  - unfold Set_in_order.
    destruct (Set_loop_appends entries [] b) as (zs & Hp & Ha & Hpool).
    destruct (fold_left _ _ _) as [sets b1]. cbn [snd] in *.
    eexists [_], zs. cbn. now rewrite Hp, Ha, Hpool.
  - unfold Values.
    destruct (Values_loop_frame values [] b) as (n & Hn).
    destruct (fold_left _ _ _) as [sets b1]. cbn [snd] in Hn. subst b1.
    now eexists [_], values.
  - unfold Returning. destruct (0 <? length columns)%nat.
    + eexists [_; _], []. cbn. now rewrite app_nil_r.
    + exists [], []. now rewrite !app_nil_r.
Qed.

Lemma run_appends (cs : list call) (b : Builder) :
  exists (ps : list string) (xs : list value),
    parts (run cs b) = parts b ++ ps
    /\ args (run cs b) = args b ++ xs
    /\ pool (run cs b) = pool b.
Proof.
  revert b. induction cs as [|c cs IH]; intros b.
  - exists [], []. cbn. now rewrite !app_nil_r.
  - change (run (c :: cs) b) with (run cs (exec c b)).
    destruct (exec_appends c b) as (ps & xs & Hp & Ha & Hpool).
    destruct (IH (exec c b)) as (ps' & xs' & Hp' & Ha' & Hpool').
    exists (ps ++ ps'), (xs ++ xs').
    rewrite Hp', Ha', Hpool', Hp, Ha, Hpool, <- !app_assoc. repeat split.
Qed.

(** X1.  Whatever chain of calls is made on a builder, with whatever
    arguments, the fragments and the arguments it had are still there, at
    the same positions: no call removes, reorders or rewrites an earlier
    fragment or argument, and the lists only grow.  The pool is the one it
    had. *)
Theorem chain_only_appends (cs : list call) (b : Builder) :
  (forall (i : nat) (part : string),
     parts b !! i = Some part -> parts (run cs b) !! i = Some part)
  /\ (forall (i : nat) (x : value),
        args b !! i = Some x -> args (run cs b) !! i = Some x)
  /\ (length (parts b) <= length (parts (run cs b)))%nat
  /\ (length (args b) <= length (args (run cs b)))%nat
  /\ pool (run cs b) = pool b.
Proof.
  destruct (run_appends cs b) as (ps & xs & Hp & Ha & Hpool).
  rewrite Hp, Ha, !length_app. repeat split; try lia; try assumption.
  - intros i part Hi. now apply lookup_app_l_Some.
  - intros i x Hi. now apply lookup_app_l_Some.
Qed.

(** ** The rewriter on arbitrary bytes *)

Section rewriter_output.
Import utf8.

Ltac valid_case Hv :=
  cbn [ValidString] in Hv;
  repeat match goal with
  | E : (_ <? RuneSelf) = _ |- _ => rewrite E in Hv
  | E : decode2 _ _ = _ |- _ => rewrite E in Hv
  | E : decode3 _ _ _ = _ |- _ => rewrite E in Hv
  | E : decode4 _ _ _ _ = _ |- _ => rewrite E in Hv
  end;
  try discriminate Hv.

(** A well-formed prefix does not change whether the rest is well-formed. *)
Lemma ValidString_app (s1 s2 : string) :
  ValidString s1 = true -> ValidString (s1 +:+ s2) = ValidString s2.
Proof.
  functional induction (range_runes s1) using range_runes_ind;
    intros Hv; valid_case Hv.
  - reflexivity.
  - simpl. rewrite e0. apply IHl. exact Hv.
  - simpl. rewrite e0, e2. apply IHl. exact Hv.
  - simpl. rewrite e0, e2, e4. apply IHl. exact Hv.
  - simpl. rewrite e0, e2, e4, e6. apply IHl. exact Hv.
Qed.

Lemma plain_clean (s : string) :
  plain s = true -> ValidString s = true /\ markers s = O.
Proof.
  induction s as [|a s IH]; [split; reflexivity|].
  cbn [plain ValidString markers]. intros H.
  apply andb_true_iff in H as [H Hs]. apply andb_true_iff in H as [Ha Hm].
  apply negb_true_iff in Hm. rewrite Ha, Hm. now apply IH.
Qed.

Lemma plain_uint (d : Decimal.uint) : plain (NilEmpty.string_of_uint d) = true.
Proof. induction d; cbn [NilEmpty.string_of_uint plain]; try exact IHd; reflexivity. Qed.

Lemma plain_app (s1 s2 : string) :
  plain s1 = true -> plain s2 = true -> plain (s1 +:+ s2) = true.
Proof.
  intros H1 H2. induction s1 as [|a s1 IH]; [exact H2|].
  cbn [plain] in H1 |- *. simpl. cbn [plain].
  apply andb_true_iff in H1 as [Ha Hs]. rewrite Ha. now apply IH.
Qed.

Lemma Itoa_plain (n : Z) : plain (Itoa n) = true.
Proof.
  unfold Itoa, NilZero.string_of_int.
  assert (Hu : forall d, plain (NilZero.string_of_uint d) = true).
  { intros d. destruct d; try reflexivity;
      unfold NilZero.string_of_uint; apply plain_uint. }
  destruct (Z.to_int n) as [d|d]; [apply Hu|].
  cbn [plain]. rewrite Hu. reflexivity.
Qed.

Lemma placeholder_plain (n : Z) : plain (placeholder n) = true.
Proof. unfold placeholder. apply plain_app; [reflexivity | apply Itoa_plain]. Qed.

(** Appending a well-formed, marker-free chunk keeps a buffer well-formed
    and marker-free. *)
Lemma clean_app (result chunk : string) :
  ValidString result = true /\ markers result = O ->
  ValidString chunk = true /\ markers chunk = O ->
  ValidString (result +:+ chunk) = true /\ markers (result +:+ chunk) = O.
Proof.
  intros [Hv Hm] [Hv' Hm']. rewrite ValidString_app by exact Hv.
  rewrite markers_app, Hm, Hm'. split; [exact Hv' | reflexivity].
Qed.

Lemma AppendRune_RuneError (result : string) :
  AppendRune result RuneError
  = result +:+ String "239" (String "191" (String "189" "")).
Proof. apply (AppendRune_bytes result RuneError ["239"; "191"; "189"]%char). reflexivity. Qed.

(** Whatever the bytes of the input, the loop keeps its buffer well-formed
    and free of markers. *)
Lemma convert_loop_clean (s : string) :
  forall (b : Builder) (result : string),
    ValidString result = true /\ markers result = O ->
    let out := (fold_left convertPlaceholders_step (range_runes s)
                          (b, result)).2 in
    ValidString out = true /\ markers out = O.
Proof.
  functional induction (range_runes s) using range_runes_ind;
    intros b result Hclean;
    try match goal with
    | H : (_ <? RuneSelf) = false |- _ =>
        pose proof H as Hhigh; apply Z.ltb_ge in Hhigh
    end;
    try match goal with
    | H : decode2 _ _ = Some _ |- _ =>
        destruct (decode2_inv _ _ _ H) as (Hr & Henc & Hc1)
    | H : decode3 _ _ _ = Some _ |- _ =>
        destruct (decode3_inv _ _ _ _ H) as (Hr & Henc & Hc1 & Hc2)
    | H : decode4 _ _ _ _ = Some _ |- _ =>
        destruct (decode4_inv _ _ _ _ _ H) as (Hr & Henc & Hc1 & Hc2 & Hc3)
    end;
    cbn [fold_left];
    try (rewrite step_other by (unfold RuneSelf, RuneError in *; lia));
    try rewrite AppendRune_RuneError;
    try (apply IHl; apply clean_app; [exact Hclean | split; reflexivity]).
  - exact Hclean.
  - destruct (Z.eqb_spec (byte_val b0) 63) as [E|E].
    + rewrite E.
      change (convertPlaceholders_step (b, result) 63)
        with (incr_argIndex b,
              result +:+ placeholder (argIndex (incr_argIndex b))).
      apply IHl. apply clean_app; [exact Hclean|].
      apply plain_clean, placeholder_plain.
    + rewrite step_other by exact E.
      apply IHl. rewrite (AppendRune_bytes _ _ [b0]).
      * apply clean_app; [exact Hclean|]. split.
        -- cbn [String.string_of_list_ascii ValidString]. now rewrite e0.
        -- cbn [String.string_of_list_ascii markers].
           rewrite byte_val_marker.
           destruct (Z.eqb_spec (byte_val b0) 63); [contradiction | reflexivity].
      * apply encode_ascii. apply Z.ltb_lt in e0.
        pose proof (byte_val_range b0). lia.
  - apply IHl. rewrite (AppendRune_bytes _ _ [b0; b1]) by exact Henc.
    apply clean_app; [exact Hclean|]. split.
    + cbn [String.string_of_list_ascii ValidString]. now rewrite e0, e2.
    + cbn [String.string_of_list_ascii].
      now rewrite !markers_high by (unfold RuneSelf in *; lia).
  - apply IHl. rewrite (AppendRune_bytes _ _ [b0; b1; b2]) by exact Henc.
    apply clean_app; [exact Hclean|]. split.
    + cbn [String.string_of_list_ascii ValidString]. now rewrite e0, e2, e4.
    + cbn [String.string_of_list_ascii].
      now rewrite !markers_high by (unfold RuneSelf in *; lia).
  - apply IHl. rewrite (AppendRune_bytes _ _ [b0; b1; b2; b3]) by exact Henc.
    apply clean_app; [exact Hclean|]. split.
    + cbn [String.string_of_list_ascii ValidString].
      now rewrite e0, e2, e4, e6.
    + cbn [String.string_of_list_ascii].
      now rewrite !markers_high by (unfold RuneSelf in *; lia).
Qed.

(** The loop reads nothing of the builder but the counter. *)
Lemma convert_loop_reads_counter (rs : list rune) :
  forall (b1 b2 : Builder) (result : string),
    argIndex b1 = argIndex b2 ->
    (fold_left convertPlaceholders_step rs (b1, result)).2
    = (fold_left convertPlaceholders_step rs (b2, result)).2.
Proof.
  induction rs as [|r rs IH]; intros b1 b2 result Hi; [reflexivity|].
  cbn [fold_left]. unfold convertPlaceholders_step at 2 4.
  destruct (r =? 63).
  - unfold incr_argIndex. cbn [set_argIndex argIndex]. rewrite Hi.
    apply IH. cbn. reflexivity.
  - apply IH. exact Hi.
Qed.

End rewriter_output.

Lemma convertPlaceholders_text (query : string) (b1 b2 : Builder) :
  argIndex b1 = argIndex b2 ->
  (convertPlaceholders query b1).1 = (convertPlaceholders query b2).1.
Proof.
  intros Hi. unfold convertPlaceholders.
  pose proof (convert_loop_reads_counter (utf8.range_runes query) b1 b2
                StringsBuilder.empty Hi) as H.
  destruct (fold_left _ _ (b1, _)) as [b1' r1].
  destruct (fold_left _ _ (b2, _)) as [b2' r2]. exact H.
Qed.

Lemma convertPlaceholders_clean (query : string) (b : Builder) :
  utf8.ValidString (convertPlaceholders query b).1 = true
  /\ markers (convertPlaceholders query b).1 = O.
Proof.
  unfold convertPlaceholders.
  pose proof (convert_loop_clean query b StringsBuilder.empty
                (conj eq_refl eq_refl)) as H.
  cbn zeta in H. destruct (fold_left _ _ _) as [b1 result]. exact H.
Qed.

(** X2.  On any string of bytes, well-formed UTF-8 or not, and any builder
    whose counter stays within the range of [int]: the rewriter changes
    nothing of the builder but the counter, which it moves by the number of
    marker bytes; and the text it returns depends on nothing of the builder
    but the counter. *)
Theorem convertPlaceholders_touches_only_the_counter
    (query : string) (b : Builder) :
  int_min <= argIndex b ->
  argIndex b + Z.of_nat (markers query) <= int_max ->
  (convertPlaceholders query b).2
  = set_argIndex (argIndex b + Z.of_nat (markers query)) b
  /\ forall b' : Builder,
       argIndex b' = argIndex b ->
       (convertPlaceholders query b').1 = (convertPlaceholders query b).1.
Proof.
  intros Hlo Hhi. split; [now apply convertPlaceholders_counter|].
  intros b' Hi. now apply convertPlaceholders_text.
Qed.

Lemma convertPlaceholders_touches_only_the_counter_witness :
  let query := String "255" "? = ?" in
  let b := Values [VInt 1] (From "t" New) in
  (convertPlaceholders query b).2 = set_argIndex 3 b.
Proof.
  intros query b.
  refine (proj1 (convertPlaceholders_touches_only_the_counter query b _ _)).
  - vm_compute. discriminate.
  - vm_compute. discriminate.
Defined.

(** X3.  Whatever the input, the text the rewriter returns is well-formed
    UTF-8 and contains no marker; so rewriting it once more, on any builder,
    returns it verbatim and leaves that builder unchanged. *)
Theorem convertPlaceholders_output_is_final
    (query : string) (b b' : Builder) :
  let text := (convertPlaceholders query b).1 in
  utf8.ValidString text = true
  /\ markers text = O
  /\ convertPlaceholders text b' = (text, b').
Proof.
  intros text. destruct (convertPlaceholders_clean query b) as [Hv Hm].
  split; [exact Hv|]. split; [exact Hm|].
  now apply convertPlaceholders_verbatim.
Qed.

(** ** The keyword rule of [Where], and [AndWhere] and [OrWhere] *)

Lemma substring_all (s : string) : String.substring 0 (String.length s) s = s.
Proof. induction s as [|a s IH]; [reflexivity|]. cbn. now rewrite IH. Qed.

Lemma substring_skip (pre s : string) (n : nat) :
  String.substring (String.length pre) n (pre +:+ s) = String.substring 0 n s.
Proof. induction pre as [|a pre IH]; [reflexivity|]. cbn. exact IH. Qed.

Lemma string_length_app (s1 s2 : string) :
  String.length (s1 +:+ s2) = (String.length s1 + String.length s2)%nat.
Proof. induction s1 as [|a s1 IH]; [reflexivity|]. cbn. now rewrite IH. Qed.

Lemma substring_split (s : string) :
  forall k : nat,
    (k <= String.length s)%nat ->
    s = String.substring 0 k s
        +:+ String.substring k (String.length s - k) s.
Proof.
  induction s as [|a s IH]; intros k Hk.
  - cbn in Hk. assert (k = O) by lia. subst k. reflexivity.
  - destruct k as [|k].
    + cbn. now rewrite substring_all.
    + cbn in Hk |- *. f_equal. apply IH. lia.
Qed.

(** [strings.HasSuffix(s, suffix)] holds exactly when [s] ends with
    [suffix]. *)
Lemma HasSuffix_spec (s suffix : string) :
  HasSuffix s suffix = true <-> exists pre, s = pre +:+ suffix.
Proof.
  unfold HasSuffix. rewrite andb_true_iff, Nat.leb_le, String.eqb_eq. split.
  - intros [Hlen Hsub].
    exists (String.substring 0 (String.length s - String.length suffix) s).
    rewrite (substring_split s (String.length s - String.length suffix))
      at 1 by lia.
    f_equal. rewrite <- Hsub at 3. f_equal. lia.
  - intros [pre ->]. rewrite string_length_app. split; [lia|].
    replace (String.length pre + String.length suffix
             - String.length suffix)%nat with (String.length pre) by lia.
    rewrite substring_skip. apply substring_all.
Qed.

Lemma Where_parts (condition : string) (xs : list value) (b : Builder) :
  parts (Where condition xs b)
  = parts b
    ++ (if where_guard (parts b) then ["WHERE"] else [])
    ++ [(convertPlaceholders condition b).1].
Proof.
  unfold Where.
  set (b1 := if where_guard (parts b) then append_parts ["WHERE"] b else b).
  assert (Hi : argIndex b1 = argIndex b)
    by (subst b1; now destruct (where_guard _)).
  assert (Hp : parts b1
               = parts b ++ (if where_guard (parts b) then ["WHERE"] else []))
    by (subst b1; destruct (where_guard _); cbn; now rewrite ?app_nil_r).
  rewrite <- (convertPlaceholders_text condition b1 b Hi).
  destruct (convertPlaceholders_frame condition b1) as [n Hn].
  destruct (convertPlaceholders condition b1) as [cond b2].
  cbn [fst snd] in *. subst b2. cbn. rewrite Hp. now rewrite <- app_assoc.
Qed.

(** X4.  On a builder with fragments, [Where] decides on the text of the
    last fragment alone: if that fragment ends with the five bytes [WHERE]
    (as it does after [From("ELSEWHERE")], too) the rewritten condition is
    appended without a keyword; in every other case the keyword [WHERE] is
    appended first, whatever came before, also when the fragments already
    hold a [WHERE] clause. *)
Theorem Where_keyword_rule
    (condition : string) (xs : list value) (b : Builder)
    (before : list string) (last_part : string) :
  parts b = before ++ [last_part] ->
  let text := (convertPlaceholders condition b).1 in
  ((exists pre, last_part = pre +:+ "WHERE") ->
   parts (Where condition xs b) = parts b ++ [text])
  /\ ((forall pre, last_part <> pre +:+ "WHERE") ->
      parts (Where condition xs b) = parts b ++ ["WHERE"; text]).
Proof.
  intros Hparts text. rewrite Where_parts, Hparts, where_guard_snoc.
  fold text. split.
  - intros Hends. apply HasSuffix_spec in Hends. rewrite Hends. reflexivity.
  - intros Hnot. destruct (HasSuffix last_part "WHERE") eqn:Hs; [|reflexivity].
    apply HasSuffix_spec in Hs as [pre Hpre]. now destruct (Hnot pre).
Qed.

Lemma Where_keyword_rule_witness :
  parts (Where "id = ?" [VInt 1] (From "ELSEWHERE" (Select ["*"] New)))
  = ["SELECT *"; "FROM ELSEWHERE"; "id = $1"].
Proof.
  refine (proj1 (Where_keyword_rule "id = ?" [VInt 1]
                   (From "ELSEWHERE" (Select ["*"] New))
                   ["SELECT *"] "FROM ELSEWHERE" eq_refl) _).
  exists "FROM ELSE". reflexivity.
Defined.

(** X5.  [AndWhere] and [OrWhere] look at nothing: on any builder, also an
    empty one or one without a [WHERE] clause, they append the keyword and
    the rewritten condition as two fragments and the given values to the
    argument list, and leave the pool, the table and the transaction
    alone. *)
Theorem AndWhere_OrWhere_are_unconditional
    (condition : string) (xs : list value) (b : Builder) :
  let text := (convertPlaceholders condition b).1 in
  (parts (AndWhere condition xs b) = parts b ++ ["AND"; text]
   /\ args (AndWhere condition xs b) = args b ++ xs
   /\ (pool (AndWhere condition xs b), table (AndWhere condition xs b),
       tx (AndWhere condition xs b)) = (pool b, table b, tx b))
  /\ (parts (OrWhere condition xs b) = parts b ++ ["OR"; text]
      /\ args (OrWhere condition xs b) = args b ++ xs
      /\ (pool (OrWhere condition xs b), table (OrWhere condition xs b),
          tx (OrWhere condition xs b)) = (pool b, table b, tx b)).
Proof.
  intros text. subst text. unfold AndWhere, OrWhere.
  destruct (convertPlaceholders_frame condition b) as [n Hn].
  destruct (convertPlaceholders condition b) as [cond b2].
  cbn [fst snd] in *. subst b2. repeat split.
Qed.

(** ** Unpaired calls, and rendering along a chain *)



Lemma run_counts (cs : list call) :
  forall b : Builder,
    int_min <= argIndex b ->
    argIndex b + Z.of_nat (all_generated cs) <= int_max ->
    args (run cs b) = args b ++ all_supplied cs
    /\ argIndex (run cs b) = argIndex b + Z.of_nat (all_generated cs).
Proof.
  unfold all_supplied.
  induction cs as [|c cs IH]; intros b Hlo Hhi.
  - cbn. rewrite app_nil_r. split; [reflexivity | lia].
  - cbn [fmap list_fmap concat all_generated] in *.
    destruct (exec_effect c b Hlo ltac:(lia)) as [Ha Hi].
    change (run (c :: cs) b) with (run cs (exec c b)).
    destruct (IH (exec c b) ltac:(lia) ltac:(lia)) as [Ha' Hi'].
    rewrite Ha', Hi', Ha, Hi, <- app_assoc. split; [reflexivity | lia].
Qed.

(** X6.  No call checks that it is given as many values as it generates
    placeholders.  Along any chain (on a counter that stays within the range
    of [int]) every supplied value is appended and every marker is numbered,
    so the difference between the length of the argument list and the
    counter changes by exactly the number of values supplied minus the
    number of placeholders generated, and a later call never repairs it. *)
Theorem unpaired_calls_are_accepted (cs : list call) (b : Builder) :
  int_min <= argIndex b ->
  argIndex b + Z.of_nat (all_generated cs) <= int_max ->
  args (run cs b) = args b ++ all_supplied cs
  /\ argIndex (run cs b) = argIndex b + Z.of_nat (all_generated cs)
  /\ Z.of_nat (length (args (run cs b))) - argIndex (run cs b)
     = (Z.of_nat (length (args b)) - argIndex b)
       + (Z.of_nat (length (all_supplied cs)) - Z.of_nat (all_generated cs)).
Proof.
  intros Hlo Hhi. destruct (run_counts cs b Hlo Hhi) as [Ha Hi].
  split; [exact Ha|]. split; [exact Hi|].
  rewrite Ha, Hi, length_app. lia.
Qed.

Lemma unpaired_calls_are_accepted_witness :
  let cs := [CSelect ["*"]; CFrom "users";
             CWhere "a = ? AND b = ?" [VInt 1];
             CAndWhere "c = 1" [VInt 2; VInt 3; VInt 4]] in
  args (run cs New) = [VInt 1; VInt 2; VInt 3; VInt 4]
  /\ argIndex (run cs New) = 2.
Proof.
  intros cs.
  destruct (unpaired_calls_are_accepted cs New) as (Ha & Hi & _).
  - vm_compute. discriminate.
  - vm_compute. discriminate.
  - split; [exact Ha | exact Hi].
Defined.

Lemma Join_app (ps qs : list string) (sep : string) :
  ps <> [] -> qs <> [] ->
  Join (ps ++ qs) sep = Join ps sep +:+ sep +:+ Join qs sep.
Proof.
  intros Hps Hqs. induction ps as [|p ps IH]; [contradiction|].
  destruct ps as [|p' ps].
  - destruct qs as [|q qs]; [contradiction | reflexivity].
  - change (Join ((p :: p' :: ps) ++ qs) sep)
      with (p +:+ sep +:+ Join ((p' :: ps) ++ qs) sep).
    rewrite IH by discriminate.
    change (Join (p :: p' :: ps) sep) with (p +:+ sep +:+ Join (p' :: ps) sep).
    now rewrite !append_assoc.
Qed.

(** X7.  Render a builder (one that has its pool), go on chaining calls on
    it, and render again: the second text starts with the first.  What
    follows is nothing, or, when the first text came from at least one
    fragment, a space and the new fragments joined by spaces.  Text once
    rendered is never changed by later calls. *)
Theorem rendered_text_is_kept
    (cs : list call) (b : Builder) (pick1 pick2 : option nat) :
  pool_clean b ->
  exists (text more : string) (b1 b2 : Builder) (added : list string),
    Builder_String pick1 b = Some (text, b1)
    /\ Builder_String pick2 (run cs b1) = Some (text +:+ more, b2)
    /\ parts (run cs b1) = parts b ++ added
    /\ (added = [] -> more = "")
    /\ (parts b <> [] -> added <> [] -> more = " " +:+ Join added " ")
    /\ (parts b = [] -> more = Join added " ").
Proof.
  intros Hclean.
  destruct (Builder_String_clean pick1 b Hclean) as (p1 & H1 & Hp1).
  set (b1 := set_pool (Some p1) b) in *.
  destruct (run_appends cs b1) as (added & xs & Hparts & _ & Hpool).
  assert (Hclean' : pool_clean (run cs b1)).
  { exists p1. rewrite Hpool. split; [reflexivity | exact Hp1]. }
  destruct (Builder_String_clean pick2 _ Hclean') as (p2 & H2 & _).
  change (parts b1) with (parts b) in Hparts. rewrite Hparts in H2.
  assert (Hjoin : exists more,
             Join (parts b ++ added) " " = Join (parts b) " " +:+ more
             /\ (added = [] -> more = "")
             /\ (parts b <> [] -> added <> [] -> more = " " +:+ Join added " ")
             /\ (parts b = [] -> more = Join added " ")).
  { destruct (parts b) as [|p ps] eqn:Hb.
    - exists (Join added " "). cbn [app Join]. repeat split; try congruence.
      intros ->. reflexivity.
    - destruct added as [|q qs].
      + exists "". rewrite app_nil_r, append_nil_r.
        repeat split; congruence.
      + exists (" " +:+ Join (q :: qs) " ").
        rewrite Join_app by discriminate. repeat split; congruence. }
  destruct Hjoin as (more & Hmore & Hrest).
  rewrite Hmore in H2.
  exists (Join (parts b) " "), more, b1,
         (set_pool (Some p2) (run cs b1)), added.
  split; [exact H1|]. split; [exact H2|]. split; [exact Hparts | exact Hrest].
Qed.

Lemma rendered_text_is_kept_witness :
  let b := From "users" (Select ["id"] New) in
  let cs := [CWhere "id = ?" [VInt 1]; COrderBy ["id"]] in
  pool_clean b
  /\ exists text more b1 b2 added,
       Builder_String None b = Some (text, b1)
       /\ Builder_String (Some 0%nat) (run cs b1) = Some (text +:+ more, b2)
       /\ parts (run cs b1) = parts b ++ added
       /\ (added = [] -> more = "")
       /\ (parts b <> [] -> added <> [] -> more = " " +:+ Join added " ")
       /\ (parts b = [] -> more = Join added " ").
Proof.
  intros b cs.
  assert (Hb : pool_clean b)
    by (exists SyncPool.fresh; split; [reflexivity | constructor]).
  split; [exact Hb|].
  exact (rendered_text_is_kept cs b None (Some 0%nat) Hb).
Defined.

(** ** Binding a struct and assigning its columns *)

Lemma tagged_entries_columns (fields : list StructField) :
  (tagged_entries fields).*1
  = column <$> filter (fun f => tagged f = true) fields.
Proof.
  unfold tagged_entries. rewrite <- list_fmap_compose. reflexivity.
Qed.

Lemma elem_of_tagged_entries (fields : list StructField)
    (col : string) (v : value) :
  (col, v) ∈ tagged_entries fields
  <-> exists f, f ∈ fields /\ tagged f = true /\ column f = col
                /\ fieldValue f = v.
Proof.
  unfold tagged_entries. rewrite list_elem_of_fmap. split.
  - intros (f & [= -> ->] & Hf). apply list_elem_of_filter in Hf as [Ht Hin].
    now exists f.
  - intros (f & Hin & Ht & <- & <-). exists f. split; [reflexivity|].
    now apply list_elem_of_filter.
Qed.

(** With distinct column names, the mapping [Bind] builds is the map of the
    tagged fields. *)
Lemma bound_column_list_to_map (fields : list StructField) :
  NoDup (column <$> filter (fun f => tagged f = true) fields) ->
  forall m : gmap string value,
    (forall col, m !! col = bound_column fields col) ->
    m = list_to_map (tagged_entries fields).
Proof.
  intros Hnd m Hm. apply map_eq. intros col. rewrite Hm.
  destruct (list_to_map (tagged_entries fields) !! col) as [v|] eqn:Hl.
  - apply elem_of_list_to_map_2, elem_of_tagged_entries in Hl
      as (f & Hin & Ht & <- & <-).
    now apply bound_column_distinct.
  - apply not_elem_of_list_to_map_2 in Hl.
    destruct (bound_column fields col) as [v|] eqn:Hb; [|reflexivity].
    exfalso. apply Hl.
    apply bound_column_Some in Hb as (f & Hin & Ht & <- & _).
    rewrite tagged_entries_columns. apply list_elem_of_fmap_2.
    now apply list_elem_of_filter.
Qed.

(** X8.  Bind a struct (or a pointer to one) whose tagged fields are
    exported and declare distinct columns, and hand the mapping to [Set]:
    the [SET] fragment has one assignment per tagged field, in some order,
    and the argument list grows by the values of the tagged fields that are
    not raw expressions, in that same order; the counter moves by their
    number.  The untagged fields appear nowhere. *)
Theorem Bind_then_Set
    (ToLower : string -> string) (typeName : string)
    (fields : list StructField) (dest : reflected)
    (b b1 b2 : Builder) (m : gmap string value) :
  dest = RStruct typeName fields \/ dest = RPtr (RStruct typeName fields) ->
  Forall (fun f => tagged f = true -> fieldExported f = true) fields ->
  NoDup (column <$> filter (fun f => tagged f = true) fields) ->
  int_min <= argIndex b ->
  argIndex b + Z.of_nat (length (bound_values (tagged_entries fields)))
    <= int_max ->
  Bind ToLower dest b = Some (m, b1) ->
  Builder_Set m b1 b2 ->
  exists (entries : list (string * value)) (sets : list string),
    entries ≡ₚ tagged_entries fields
    /\ parts b2 = parts b ++ ["SET " +:+ Join sets ", "]
    /\ sets = assignments (argIndex b) entries
    /\ length sets = length (filter (fun f => tagged f = true) fields)
    /\ args b2 = args b ++ bound_values entries
    /\ argIndex b2
       = argIndex b
         + Z.of_nat (length (bound_values (tagged_entries fields))).
Proof.
  intros Hdest Hexp Hnd Hlo Hhi HBind (entries & Hperm & ->).
  destruct (Bind_loop_lookup fields ∅ Hexp) as (m0 & Hm0 & Hl).
  assert (Hm : m = m0 /\ argIndex b1 = argIndex b /\ parts b1 = parts b
               /\ args b1 = args b).
  { destruct Hdest as [-> | ->]; unfold Bind in HBind; rewrite Hm0 in HBind;
      injection HBind as <- <-; destruct (String.eqb (table b) "");
      repeat split. }
  destruct Hm as (-> & Hi & Hp & Ha).
  assert (Hmap : m0 = list_to_map (tagged_entries fields)).
  { apply bound_column_list_to_map; [exact Hnd|]. intros col.
    rewrite Hl, lookup_empty. now destruct (bound_column fields col). }
  assert (Hentries : entries ≡ₚ tagged_entries fields).
  { rewrite Hperm, Hmap. apply map_to_list_to_map.
    rewrite tagged_entries_columns. exact Hnd. }
  pose proof (Permutation_length (bound_values_Permutation _ _ Hentries))
    as Hlen.
  exists entries, (assignments (argIndex b) entries).
  rewrite Set_in_order_spec by (rewrite Hi, ?Hlen; assumption).
  cbn [append_parts set_parts set_args set_argIndex parts args argIndex].
  rewrite Hi, Hp, Ha, Hlen. split; [exact Hentries|].
  split; [reflexivity|]. split; [reflexivity|]. split.
  { rewrite <- (length_fmap (fun f => (column f, fieldValue f))).
    fold (tagged_entries fields).
    rewrite <- (Permutation_length Hentries).
    generalize (argIndex b). clear.
    induction entries as [|[col val] entries IH]; intros c; [reflexivity|].
    cbn [assignments]. destruct (as_SQLExpression val); cbn [length];
      now rewrite IH. }
  split; reflexivity.
Qed.

Lemma Bind_then_Set_witness :
  let fields :=
    [mkField "ID" true [("db", "id")] (VInt 7);
     mkField "Seen" true [("db", "seen")] (VExpr (mkRaw "NOW()"));
     mkField "cache" false [] VNil] in
  let b := Update "users" New in
  exists m b1 b2,
    Bind (fun s => s) (RPtr (RStruct "User" fields)) b = Some (m, b1)
    /\ Builder_Set m b1 b2
    /\ argIndex b2 = 1.
Proof.
  intros fields b.
  assert (HB : exists m b1,
             Bind (fun s => s) (RPtr (RStruct "User" fields)) b
             = Some (m, b1)) by (eexists _, _; reflexivity).
  destruct HB as (m & b1 & HB).
  exists m, b1, (Set_in_order (map_to_list m) b1).
  assert (HS : Builder_Set m b1 (Set_in_order (map_to_list m) b1))
    by (exists (map_to_list m); split; reflexivity).
  split; [exact HB|]. split; [exact HS|].
  destruct (Bind_then_Set (fun s => s) "User" fields
              (RPtr (RStruct "User" fields)) b b1
              (Set_in_order (map_to_list m) b1) m)
    as (entries & sets & _ & _ & _ & _ & _ & Hi); try exact HB; try exact HS.
  - right. reflexivity.
  - repeat constructor; discriminate.
  - vm_compute. repeat constructor; rewrite ?list_elem_of_In; cbn;
      intuition discriminate.
  - vm_compute. discriminate.
  - vm_compute. discriminate.
  - exact Hi.
Defined.

(** ** Placeholders of [Values] *)

(** Reading a decimal text back gives the number: two numbers have the same
    placeholder text only if they are the same number. *)
Lemma placeholder_inj (m n : Z) : placeholder m = placeholder n -> m = n.
Proof.
  unfold placeholder, Itoa. intros H. simpl in H. injection H as H.
  assert (Hread : forall z, NilZero.int_of_string
                              (NilZero.string_of_int (Z.to_int z))
                            = Some (Z.to_int z)).
  { intros z. apply NilZero.isi; destruct z; cbn; try discriminate;
      intros [= E]; now apply DecimalPos.Unsigned.to_uint_nonnil in E. }
  apply DecimalZ.to_int_inj.
  pose proof (Hread m) as Hm. rewrite H, Hread in Hm. now injection Hm.
Qed.

(** X9.  The placeholders of one [VALUES] fragment are as many as the
    values and pairwise distinct texts: no two values of the call share a
    placeholder (as long as the counter stays within the range of
    [int]). *)
Theorem Values_placeholders_are_distinct (values : list value) (b : Builder) :
  int_min <= argIndex b ->
  argIndex b + Z.of_nat (length values) <= int_max ->
  exists placeholders : list string,
    parts (Values values b)
    = parts b ++ ["VALUES (" +:+ Join placeholders ", " +:+ ")"]
    /\ length placeholders = length values
    /\ NoDup placeholders
    /\ forall (i : nat) (v : value),
         values !! i = Some v ->
         placeholders !! i
         = Some (placeholder (argIndex b + Z.of_nat i + 1))
         /\ args (Values values b) !! (length (args b) + i)%nat = Some v.
Proof.
  intros Hlo Hhi.
  exists (placeholder <$> seqZ (argIndex b + 1) (Z.of_nat (length values))).
  rewrite Values_spec by assumption. split; [reflexivity|].
  split; [rewrite length_fmap, length_seqZ; lia|]. split.
  - apply NoDup_fmap_2; [|apply NoDup_seqZ].
    intros m n. apply placeholder_inj.
  - intros i v Hi. split.
    + rewrite list_lookup_fmap, lookup_seqZ_lt.
      * change (Some (placeholder (argIndex b + 1 + Z.of_nat i))
                = Some (placeholder (argIndex b + Z.of_nat i + 1))).
        do 2 f_equal. lia.
      * apply lookup_lt_Some in Hi. lia.
    + cbn. rewrite lookup_app_r by lia.
      replace (length (args b) + i - length (args b))%nat with i by lia.
      exact Hi.
Qed.

Lemma Values_placeholders_are_distinct_witness :
  exists placeholders : list string,
    parts (Values [VInt 1; VInt 1] (Insert "t" ["a"; "b"] New))
    = parts (Insert "t" ["a"; "b"] New)
      ++ ["VALUES (" +:+ Join placeholders ", " +:+ ")"]
    /\ NoDup placeholders.
Proof.
  destruct (Values_placeholders_are_distinct [VInt 1; VInt 1]
              (Insert "t" ["a"; "b"] New))
    as (placeholders & Hp & _ & Hnd & _).
  - vm_compute. discriminate.
  - vm_compute. discriminate.
  - exists placeholders. split; [exact Hp | exact Hnd].
Defined.

(** ** Prepared statements and raw queries *)

(** X10.  [Prepare] on a builder that has its pool never fails and never
    panics: it returns a statement and a nil error.  The statement holds
    the rendered text and the argument list of the builder; the builder
    keeps its fragments, arguments, counter, table and transaction.  The
    statement runs on the [*sql.Tx] of the builder's transaction when the
    builder has a transaction with one, whatever database was passed to
    [Prepare]; it runs on that database otherwise, and panics when there is
    none. *)
Theorem Prepare_takes_text_args_and_transaction
    (heap : Transaction -> TransactionState) (pick : option nat)
    (db : option DB) (b : Builder) :
  pool_clean b ->
  let text := Join (parts b) " " in
  let target :=
    match tx b with
    | Some t => Transaction_tx (heap t)
    | None => None
    end in
  exists (stmt : Stmt) (b' : Builder),
    Prepare heap pick db b = Some (stmt, None, b')
    /\ Stmt_query stmt = text
    /\ Stmt_args stmt = args b
    /\ (parts b', args b', argIndex b', table b', tx b')
       = (parts b, args b, argIndex b, table b, tx b)
    /\ (forall h, target = Some h ->
          Stmt_Query stmt = Some (Tx_Query h text (args b))
          /\ Stmt_QueryRow stmt = Some (Tx_QueryRow h text (args b))
          /\ Stmt_Exec stmt = Some (Tx_Exec h text (args b)))
    /\ (forall d, target = None -> db = Some d ->
          Stmt_Query stmt = Some (DB_Query d text (args b))
          /\ Stmt_QueryRow stmt = Some (DB_QueryRow d text (args b))
          /\ Stmt_Exec stmt = Some (DB_Exec d text (args b)))
    /\ (target = None -> db = None ->
          Stmt_Query stmt = None /\ Stmt_QueryRow stmt = None
          /\ Stmt_Exec stmt = None).
Proof.
  intros Hclean text target.
  destruct (Builder_String_clean pick b Hclean) as (p & HS & _).
  unfold Prepare. rewrite HS. fold text.
  cbn [set_pool tx args]. fold target.
  eexists _, _. split; [reflexivity|].
  unfold Stmt_Query, Stmt_QueryRow, Stmt_Exec.
  cbn [Stmt_query Stmt_args Stmt_db Stmt_tx].
  repeat split.
  - now rewrite H.
  - now rewrite H.
  - now rewrite H.
  - now rewrite H, H0.
  - now rewrite H, H0.
  - now rewrite H, H0.
  - now rewrite H, H0.
  - now rewrite H, H0.
  - now rewrite H, H0.
Qed.

Lemma Prepare_takes_text_args_and_transaction_witness :
  let b := Values [VString "a"] (Insert "users" ["name"]
             (WithTransaction (Some 5%positive) New)) in
  let heap := fun _ : Transaction => mkTransaction (Some 9%positive) false in
  exists stmt b',
    Prepare heap None (Some 1%positive) b = Some (stmt, None, b')
    /\ Stmt_Exec stmt
       = Some (Tx_Exec 9%positive "INSERT INTO users (name) VALUES ($1)"
                       [VString "a"]).
Proof.
  intros b heap.
  destruct (Prepare_takes_text_args_and_transaction heap None
              (Some 1%positive) b)
    as (stmt & b' & HP & _ & _ & _ & Htx & _).
  - exists SyncPool.fresh. split; [reflexivity | constructor].
  - exists stmt, b'. split; [exact HP|].
    exact (proj2 (proj2 (Htx 9%positive eq_refl))).
Defined.


(** ** Transactions *)

Lemma tx_run_done (ops : list tx_op) (t : TransactionState) :
  Transaction_done t = true -> tx_run ops t = Some ([], t).
Proof.
  intros Hd. induction ops as [|op ops IH]; [reflexivity|].
  cbn [tx_run]. destruct op; cbn [tx_step]; unfold Commit, Rollback;
    rewrite Hd, IH; reflexivity.
Qed.

Lemma tx_run_open (ops : list tx_op) (h : SqlTx) :
  Forall (fun op => op_answer op <> None) ops ->
  tx_run ops (mkTransaction (Some h) false)
  = Some (op_call h <$> ops, mkTransaction (Some h) false).
Proof.
  induction 1 as [|op ops Hop _ IH]; [reflexivity|].
  cbn [tx_run]. destruct op as [[err|]|[err|]]; cbn in Hop; try congruence;
    cbn [tx_step Commit Rollback Transaction_done Transaction_tx];
    rewrite IH; reflexivity.
Qed.

(** X12.  A transaction that [Begin] returned is used through any sequence
    of [Commit] and [Rollback] calls.  Every call up to and including the
    first one that [database/sql] answers without error is passed on to the
    [*sql.Tx]; a call that is answered with an error leaves the transaction
    open.  After the first success the transaction is done: no later call
    reaches [database/sql], whatever the later calls are. *)
Theorem transaction_finishes_once (h : SqlTx) (ops : list tx_op) :
  let t := mkTransaction (Some h) false in
  (Forall (fun op => op_answer op <> None) ops ->
   tx_run ops t = Some (op_call h <$> ops, t))
  /\ (forall (failed : list tx_op) (op : tx_op) (later : list tx_op),
        ops = failed ++ op :: later ->
        Forall (fun op => op_answer op <> None) failed ->
        op_answer op = None ->
        tx_run ops t
        = Some (op_call h <$> (failed ++ [op]), mkTransaction (Some h) true)).
Proof.
  intros t. split; [apply tx_run_open|].
  intros failed op later -> Hfailed Hop.
  induction Hfailed as [|op' failed Hop' _ IH].
  - cbn [app tx_run]. destruct op as [answer|answer]; cbn in Hop; subst answer;
      cbn [tx_step Commit Rollback Transaction_done Transaction_tx t];
      rewrite tx_run_done by reflexivity; reflexivity.
  - cbn [app tx_run].
    destruct op' as [[err|]|[err|]]; cbn in Hop'; try congruence;
      cbn [tx_step Commit Rollback Transaction_done Transaction_tx t];
      fold t; rewrite IH; reflexivity.
Qed.

Lemma transaction_finishes_once_witness :
  tx_run [OpCommit (Some (ErrSql "conn busy")); OpCommit None;
          OpRollback None; OpCommit None]
         (mkTransaction (Some 3%positive) false)
  = Some ([Tx_Commit 3%positive; Tx_Commit 3%positive],
          mkTransaction (Some 3%positive) true).
Proof.
  refine (proj2 (transaction_finishes_once 3%positive _)
            [OpCommit (Some (ErrSql "conn busy"))] (OpCommit None)
            [OpRollback None; OpCommit None] eq_refl _ eq_refl).
  repeat constructor; discriminate.
Defined.



(** ** Table and transaction along a chain *)



Lemma exec_table_tx (c : call) (b : Builder) :
  table (exec c b) = chain_table [c] (table b)
  /\ tx (exec c b) = chain_tx [c] (tx b).
Proof.
  destruct c; cbn [exec chain_table chain_tx]; try (split; reflexivity).
  - unfold Where.
    set (b1 := if where_guard (parts b) then append_parts ["WHERE"] b else b).
    assert (Hb1 : table b1 = table b /\ tx b1 = tx b)
      by (subst b1; now destruct (where_guard _)).
    destruct (convertPlaceholders_frame condition b1) as [n Hn].
    destruct (convertPlaceholders condition b1) as [cond b2].
    cbn [snd] in Hn. subst b2. exact Hb1.
  - unfold AndWhere.
    destruct (convertPlaceholders_frame condition b) as [n Hn].
    destruct (convertPlaceholders condition b) as [cond b2].
    cbn [snd] in Hn. subst b2. split; reflexivity.
  - unfold OrWhere.
    destruct (convertPlaceholders_frame condition b) as [n Hn].
    destruct (convertPlaceholders condition b) as [cond b2].
    cbn [snd] in Hn. subst b2. split; reflexivity.
  - unfold Set_in_order.
    destruct (Set_loop_frame entries [] b) as (n & xs & Hn).
    destruct (fold_left _ _ _) as [sets b1]. cbn [snd] in Hn. subst b1.
    split; reflexivity.
  - unfold Values.
    destruct (Values_loop_frame values [] b) as (n & Hn).
    destruct (fold_left _ _ _) as [sets b1]. cbn [snd] in Hn. subst b1.
    split; reflexivity.
  - unfold Returning. now destruct (0 <? length columns)%nat.
Qed.

(** X14.  Of the chainable methods only [From] writes the table and only
    [WithTransaction] the transaction: after any chain the table is the
    argument of the last [From] (the table before the chain when there is
    none) and the transaction that of the last [WithTransaction].  An
    earlier [From] keeps its fragment but loses the table. *)
Theorem last_From_and_WithTransaction_win (cs : list call) (b : Builder) :
  table (run cs b) = chain_table cs (table b)
  /\ tx (run cs b) = chain_tx cs (tx b).
Proof.
  revert b. induction cs as [|c cs IH]; intros b; [split; reflexivity|].
  change (run (c :: cs) b) with (run cs (exec c b)).
  destruct (IH (exec c b)) as [Ht Hx]. rewrite Ht, Hx.
  destruct (exec_table_tx c b) as [Ht' Hx']. rewrite Ht', Hx'.
  destruct c; split; reflexivity.
Qed.
